(** * Image commit and layer materialisation (engine backend [commit.go])

    A shallow embedding of [merge], [compressDiffToTmpFile], [downloadDiff],
    [getImagec], [setLayerConfig] and [Commit], followed by the properties
    established about them. *)

From Stdlib Require Import ZArith Lia Ascii String.
From Stdlib.Strings Require Import Byte.
From stdpp Require Import gmap strings list fin_maps.

Open Scope string_scope.
Open Scope list_scope.

(** ** Go values *)

(** A Go slice is either [nil] or a (possibly empty) sequence; [len] does not
    tell the two apart, [== nil] does. *)
Definition slice (A : Type) : Type := option (list A).

Definition len {A} (s : slice A) : nat :=
  match s with None => 0 | Some l => length l end.

Definition elems {A} (s : slice A) : list A :=
  match s with None => [] | Some l => l end.

(** [strings.Split(s, "=")[0]]: the text before the first ['='], the whole
    string when there is none. *)
Fixpoint splitHead (s : string) : string :=
  match s with
  | EmptyString => EmptyString
  | String c rest =>
      if Ascii.eqb c "="%char then EmptyString else String c (splitHead rest)
  end.

(** ** Container configuration ([containertypes.Config]) *)

Record HealthConfig : Type := mkHealth {
  Test : slice string;
  Interval : Z;
  Timeout : Z;
  Retries : Z
}.

Record Config : Type := mkConfig {
  Hostname : string;
  Domainname : string;
  User : string;
  ExposedPorts : option (gmap string unit);
  Env : slice string;
  Cmd : slice string;
  Healthcheck : option HealthConfig;
  ArgsEscaped : bool;
  ImageName : string;
  Volumes : option (gmap string unit);
  WorkingDir : string;
  Entrypoint : slice string;
  Labels : option (gmap string string);
  StopSignal : string
}.

Definition maplen {V} (m : option (gmap string V)) : nat :=
  match m with None => 0 | Some g => size g end.

(** ** [merge] *)

Section Merge.
(** [runtime.GOOS] and [strings.ToUpper] of the Go runtime. *)
Variable GOOS : string.
Variable ToUpper : string → string.

(** Lines 387-398: the scan of the user entries for one image key.
    [imageEnvKey] belongs to the enclosing iteration, so on Windows each
    pass of the scan overwrites it with its upper-case form. *)
Fixpoint envFound (imageEnvKey : string) (userEnv : list string) : bool :=
  match userEnv with
  | [] => false
  | userEnv0 :: rest =>
      let userEnvKey := splitHead userEnv0 in
      let imageEnvKey' :=
        if String.eqb GOOS "windows" then ToUpper imageEnvKey else imageEnvKey in
      let userEnvKey' :=
        if String.eqb GOOS "windows" then ToUpper userEnvKey else userEnvKey in
      if String.eqb imageEnvKey' userEnvKey' then true
      else envFound imageEnvKey' rest
  end.

(** Lines 384-402: [userEnv] is the current [userConf.Env], re-read by the
    scan of every image entry, so entries appended earlier are scanned too. *)
Fixpoint mergeEnvLoop (userEnv imageEnv : list string) : list string :=
  match imageEnv with
  | [] => userEnv
  | imageEnv0 :: rest =>
      if envFound (splitHead imageEnv0) userEnv
      then mergeEnvLoop userEnv rest
      else mergeEnvLoop (userEnv ++ [imageEnv0]) rest
  end.

Definition mergeEnv (userEnv imageEnv : slice string) : slice string :=
  if Nat.eqb (len userEnv) 0 then imageEnv
  else Some (mergeEnvLoop (elems userEnv) (elems imageEnv)).

(** Lines 371-379. *)
Definition mergePorts (user image : option (gmap string unit))
  : option (gmap string unit) :=
  if Nat.eqb (maplen user) 0 then image
  else match image, user with
       | Some im, Some us =>
           Some (map_fold (λ port _ acc,
                             match acc !! port with
                             | Some _ => acc
                             | None => <[port := tt]> acc
                             end) us im)
       | _, _ => user
       end.

(** Lines 405-412. *)
Definition mergeLabels (user image : option (gmap string string))
  : option (gmap string string) :=
  let us := match user with None => ∅ | Some us => us end in
  Some (map_fold (λ l v acc,
                    match acc !! l with
                    | Some _ => acc
                    | None => <[l := v]> acc
                    end) us (match image with None => ∅ | Some im => im end)).

(** Lines 446-452. *)
Definition mergeVolumes (user image : option (gmap string unit))
  : option (gmap string unit) :=
  if Nat.eqb (maplen user) 0 then image
  else match user with
       | Some us =>
           Some (map_fold (λ k v acc, <[k := v]> acc) us
                          (match image with None => ∅ | Some im => im end))
       | None => user
       end.

(** Lines 424-441. *)
Definition mergeHealth (user image : option HealthConfig)
  : option HealthConfig :=
  match image with
  | None => user
  | Some ih =>
      match user with
      | None => Some ih
      | Some uh =>
          Some {| Test := if Nat.eqb (len (Test uh)) 0 then Test ih else Test uh;
                  Interval := if Z.eqb (Interval uh) 0 then Interval ih else Interval uh;
                  Timeout := if Z.eqb (Timeout uh) 0 then Timeout ih else Timeout uh;
                  Retries := if Z.eqb (Retries uh) 0 then Retries ih else Retries uh |}
      end
  end.

(** Lines 414-423: the command and its flag. *)
Definition mergeCmd (userConf imageConf : Config) : slice string * bool :=
  if Nat.eqb (len (Entrypoint userConf)) 0 && Nat.eqb (len (Cmd userConf)) 0
  then (Cmd imageConf, ArgsEscaped imageConf)
  else (Cmd userConf, ArgsEscaped userConf).

(** Lines 414, 420-422: the entry point. *)
Definition mergeEntrypoint (userConf imageConf : Config) : slice string :=
  if Nat.eqb (len (Entrypoint userConf)) 0 then
    match Entrypoint userConf with
    | None => Entrypoint imageConf
    | Some _ => Entrypoint userConf
    end
  else Entrypoint userConf.

(** [merge] mutates [userConf]; the result is the mutated configuration.
    Its error result is [nil] on every path. *)
Definition merge (userConf imageConf : Config) : Config :=
  {| Hostname := Hostname userConf;
     Domainname := Domainname userConf;
     User := if String.eqb (User userConf) "" then User imageConf else User userConf;
     ExposedPorts := mergePorts (ExposedPorts userConf) (ExposedPorts imageConf);
     Env := mergeEnv (Env userConf) (Env imageConf);
     Cmd := fst (mergeCmd userConf imageConf);
     Healthcheck := mergeHealth (Healthcheck userConf) (Healthcheck imageConf);
     ArgsEscaped := snd (mergeCmd userConf imageConf);
     ImageName := ImageName userConf;
     Volumes := mergeVolumes (Volumes userConf) (Volumes imageConf);
     WorkingDir :=
       if String.eqb (WorkingDir userConf) "" then WorkingDir imageConf
       else WorkingDir userConf;
     Entrypoint := mergeEntrypoint userConf imageConf;
     Labels := mergeLabels (Labels userConf) (Labels imageConf);
     StopSignal :=
       if String.eqb (StopSignal userConf) "" then StopSignal imageConf
       else StopSignal userConf |}.
End Merge.

(** An upper-casing of the ASCII letters, used to run [merge] on examples. *)
Definition asciiUpper (c : ascii) : ascii :=
  let n := Ascii.nat_of_ascii c in
  if (97 <=? n)%nat && (n <=? 122)%nat then Ascii.ascii_of_nat (n - 32) else c.

Fixpoint upperASCII (s : string) : string :=
  match s with
  | EmptyString => EmptyString
  | String c rest => String (asciiUpper c) (upperASCII rest)
  end.

Definition emptyConfig : Config :=
  {| Hostname := ""; Domainname := ""; User := ""; ExposedPorts := None;
     Env := None; Cmd := None; Healthcheck := None; ArgsEscaped := false;
     ImageName := ""; Volumes := None; WorkingDir := ""; Entrypoint := None;
     Labels := None; StopSignal := "" |}.

Definition withEnv (c : Config) (e : slice string) : Config :=
  {| Hostname := Hostname c; Domainname := Domainname c; User := User c;
     ExposedPorts := ExposedPorts c; Env := e; Cmd := Cmd c;
     Healthcheck := Healthcheck c; ArgsEscaped := ArgsEscaped c;
     ImageName := ImageName c; Volumes := Volumes c; WorkingDir := WorkingDir c;
     Entrypoint := Entrypoint c; Labels := Labels c; StopSignal := StopSignal c |}.

Definition withCommand (c : Config) (ep cmd : slice string) (esc : bool) : Config :=
  {| Hostname := Hostname c; Domainname := Domainname c; User := User c;
     ExposedPorts := ExposedPorts c; Env := Env c; Cmd := cmd;
     Healthcheck := Healthcheck c; ArgsEscaped := esc;
     ImageName := ImageName c; Volumes := Volumes c; WorkingDir := WorkingDir c;
     Entrypoint := ep; Labels := Labels c; StopSignal := StopSignal c |}.

(** ** Errors, byte streams and the file system *)

Inductive Error : Type :=
| NotFoundError (msg : string)
| InternalServerError (msg : string)
| ConflictError (msg : string)
| PlainError (msg : string).

(** [err.Error()]. *)
Definition errorString (e : Error) : string :=
  match e with
  | NotFoundError m | InternalServerError m | ConflictError m | PlainError m => m
  end.

(** The [io.ReadCloser] handed over by the export collaborator: the bytes it
    delivers and the error, if any, that ends it instead of [io.EOF]. *)
Record Stream : Type := mkStream {
  streamData : list byte;
  streamErr : option Error
}.

(** One result of [tr.Next()] before [io.EOF]. *)
Inductive TarItem : Type :=
| TarHeader (size : Z)
| TarFailure (e : Error).

(** The library functions of the digest pipeline: [crypto/sha256],
    [compress/gzip] and [archive/tar].  [tarNext] lists the results of the
    successive [tr.Next()] calls over a compressed file, up to [io.EOF]. *)
Record Codec : Type := mkCodec {
  sha256Sum : list byte → list byte;
  gzipBytes : list byte → list byte;
  gzipNewReader : list byte → option Error;
  tarNext : list byte → list TarItem
}.

(** What the operating system answers during one materialisation.
    [MkdirAllMade] is the number of missing parents that a failing
    [os.MkdirAll] has created by the time it fails. *)
Record Host : Type := mkHost {
  GenerateRandomID : string;
  TempFileName : string → string;
  TempFileErr : option Error;
  CopyErr : option Error;
  PartialBytes : list byte;
  OpenErr : option Error;
  MkdirAllErr : option Error;
  MkdirAllMade : nat;
  RenameErr : option Error;
  DestinationDirectory : string
}.

Record FS : Type := mkFS {
  files : gmap string (list byte);
  dirs : gset string
}.

Definition writeFile (name : string) (content : list byte) (fs : FS) : FS :=
  {| files := <[name := content]> (files fs); dirs := dirs fs |}.

Definition removeFile (name : string) (fs : FS) : FS :=
  {| files := delete name (files fs); dirs := dirs fs |}.

(** The parents of a path, outermost first: its beginnings up to each
    ['/'] that is not its first byte. *)
Fixpoint parentsFrom (prefix rest : string) : list string :=
  match rest with
  | EmptyString => []
  | String c rest' =>
      (if Ascii.eqb c "/"%char && negb (String.eqb prefix "") then [prefix] else [])
      ++ parentsFrom (prefix ++ String c EmptyString) rest'
  end.

Definition parentDirs (name : string) : list string := parentsFrom "" name.

(** [os.MkdirAll]: the directory and every parent it lacks. *)
Definition mkdirAll (name : string) (fs : FS) : FS :=
  {| files := files fs;
     dirs := {[name]} ∪ list_to_set (parentDirs name) ∪ dirs fs |}.

(** [os.MkdirAll] failing after it has made the first [made] parents. *)
Definition mkdirAllFailed (made : nat) (name : string) (fs : FS) : FS :=
  {| files := files fs;
     dirs := list_to_set (take made (parentDirs name)) ∪ dirs fs |}.

Definition renameFile (old new : string) (fs : FS) : FS :=
  match files fs !! old with
  | Some content =>
      {| files := <[new := content]> (delete old (files fs)); dirs := dirs fs |}
  | None => fs
  end.

Definition readFile (name : string) (fs : FS) : list byte :=
  match files fs !! name with Some content => content | None => [] end.

(** [path.Join] of two elements (empty elements are ignored). *)
Definition pathJoin (a b : string) : string :=
  if String.eqb a "" then b
  else if String.eqb b "" then a
  else a ++ "/" ++ b.

(** ** Digests *)

Definition hexDigit (n : N) : ascii :=
  if (n <? 10)%N then ascii_of_N (48 + n) else ascii_of_N (87 + n).

Definition hexByte (b : byte) : string :=
  let n := Byte.to_N b in
  String (hexDigit (n / 16)) (String (hexDigit (n mod 16)) EmptyString).

Fixpoint hexEncode (p : list byte) : string :=
  match p with
  | [] => EmptyString
  | b :: rest => hexByte b ++ hexEncode rest
  end.

(** [digest.NewDigestFromBytes(alg, p)] followed by [String()]. *)
Definition NewDigestFromBytes (alg : string) (p : list byte) : string :=
  alg ++ ":" ++ hexEncode p.

Definition SHA256 : string := "sha256".

(** [dockerLayer.DigestSHA256EmptyTar]. *)
Definition DigestSHA256EmptyTar : string :=
  "sha256:5f70bf18a086007016e948b04aed3b82103a36bea41755b6cddfaf10ace3c6ef".

(** [imagec.ScratchLayerID]. *)
Definition ScratchLayerID : string := "scratch".

(** [int64] arithmetic wraps around. *)
Definition wrap64 (z : Z) : Z := ((z + 2 ^ 63) mod 2 ^ 64 - 2 ^ 63)%Z.

(** ** Layers *)

(** [models.Image], as far as the code fills it in (line 221). *)
Record Image : Type := mkImage {
  imgID : string;
  imgParent : string;
  imgStore : string
}.

(** [imagec.ImageWithMeta].  Its declaration is outside the sources; the
    code shows it: an embedded [*models.Image], assigned as [lm.Image] on
    line 221 and absent from the literal of lines 301-307, through which
    [lm.ID] and [lm.Parent] are read, next to the fields of its own.  The
    pointer is [None] while it is [nil]. *)
Record ImageWithMeta : Type := mkLayer {
  lmImage : option Image;
  lmDiffID : string;
  lmBlobSum : string;
  lmMeta : string;
  lmSize : Z
}.

(** The promoted fields [lm.ID] and [lm.Parent]: [None] stands for the
    panic of a read through a [nil] [lm.Image]. *)
Definition lmID (lm : ImageWithMeta) : option string :=
  match lmImage lm with Some im => Some (imgID im) | None => None end.

Definition lmParent (lm : ImageWithMeta) : option string :=
  match lmImage lm with Some im => Some (imgParent im) | None => None end.

(** ** [compressDiffToTmpFile] and [downloadDiff] *)

Section Diff.
Variable codec : Codec.
Variable host : Host.

(** [ioutil.TempFile("", prefix)] creates a file that did not exist. *)
Definition TempFile (prefix : string) (fs : FS) : (Error + string) * FS :=
  match TempFileErr host with
  | Some e => (inl e, fs)
  | None =>
      let name := TempFileName host prefix in
      match files fs !! name with
      | Some _ => (inl (PlainError "file exists"), fs)
      | None => (inr name, writeFile name [] fs)
      end
  end.

(** [io.Copy(tarMW, rc)]: fails when the source or a writer fails. *)
Definition ioCopy (rc : Stream) : Error + list byte :=
  match streamErr rc with
  | Some e => inl e
  | None =>
      match CopyErr host with
      | Some e => inl e
      | None => inr (streamData rc)
      end
  end.

(** Lines 312-358.  On the error path [cleanup] closes and removes the
    file; on the other path it closes it, and the results of
    [gzWriter.Flush()] and [gzWriter.Close()] are not looked at. *)
Definition compressDiffToTmpFile (rc : Stream) (containerID : string) (fs : FS)
  : (Error + (string * list byte * list byte)) * FS :=
  match TempFile containerID fs with
  | (inl e, fs0) => (inl e, fs0)
  | (inr out, fs0) =>
      match ioCopy rc with
      | inl e => (inl e, removeFile out (writeFile out (PartialBytes host) fs0))
      | inr data =>
          let compressed := gzipBytes codec data in
          (inr (out, sha256Sum codec data, sha256Sum codec compressed),
           writeFile out compressed fs0)
      end
  end.

(** Lines 270-280. *)
Fixpoint sumSizes (items : list TarItem) (layerSize : Z) : Error + Z :=
  match items with
  | [] => inr layerSize
  | TarFailure terr :: _ => inl terr
  | TarHeader size :: rest => sumSizes rest (wrap64 (layerSize + size))
  end.

(** Lines 248-308, up to the deferred clean-up. *)
Definition downloadDiffBody (tmpLayerFileName : string)
    (diffIDSum gzSum : list byte) (fs : FS) : (Error + ImageWithMeta) * FS :=
  let layerID := GenerateRandomID host in
  let blobSum := NewDigestFromBytes SHA256 gzSum in
  let diffID := NewDigestFromBytes SHA256 diffIDSum in
  match OpenErr host with
  | Some e => (inl e, fs)
  | None =>
      let layerFile := readFile tmpLayerFileName fs in
      match gzipNewReader codec layerFile with
      | Some e => (inl e, fs)
      | None =>
          match sumSizes (tarNext codec layerFile) 0 with
          | inl e => (inl e, fs)
          | inr layerSize =>
              let diffID :=
                if Z.eqb layerSize 0 then DigestSHA256EmptyTar else diffID in
              let destination := pathJoin (DestinationDirectory host) layerID in
              match MkdirAllErr host with
              | Some e => (inl e, mkdirAllFailed (MkdirAllMade host) destination fs)
              | None =>
                  let fs1 := mkdirAll destination fs in
                  match RenameErr host with
                  | Some e => (inl e, fs1)
                  | None =>
                      (inr {| lmImage := None;
                              lmDiffID := diffID; lmBlobSum := blobSum;
                              lmMeta := ""; lmSize := layerSize |},
                       renameFile tmpLayerFileName
                         (pathJoin destination (layerID ++ ".tar")) fs1)
                  end
              end
          end
      end
  end.

(** Lines 230-309.  The deferred function of lines 242-246 runs on every
    exit taken after it is installed. *)
Definition downloadDiff (rc : Stream) (containerID : string) (fs : FS)
  : (Error + ImageWithMeta) * FS :=
  match compressDiffToTmpFile rc containerID fs with
  | (inl e, fs0) => (inl e, fs0)
  | (inr (tmpLayerFileName, diffIDSum, gzSum), fs0) =>
      match downloadDiffBody tmpLayerFileName diffIDSum gzSum fs0 with
      | (inl e, fs1) => (inl e, removeFile tmpLayerFileName fs1)
      | (inr lm, fs1) => (inr lm, fs1)
      end
  end.
End Diff.

(** ** Collaborators of [Commit] *)

(** [cache.ContainerCache()] entry. *)
Record VicContainer : Type := mkVic {
  vcContainerID : string;
  vcLayerID : string;
  vcImageID : string
}.

(** [types.ContainerJSON], as far as [Commit] reads it. *)
Record ContainerJSON : Type := mkContainerJSON {
  cjID : string;
  cjRunning : bool;
  cjRestarting : bool;
  cjConfig : Config
}.

(** [backend.ContainerCommitConfig]. *)
Record ContainerCommitConfig : Type := mkCommitConfig {
  Repo : string;
  Tag : string;
  Comment : string;
  Changes : list string;
  MergeConfigs : bool;
  CommitConf : option Config
}.

(** [dockerimage.V1Image] as filled in by [setLayerConfig]. *)
Record V1Image : Type := mkV1Image {
  v1ID : string;
  v1Parent : string;
  v1Comment : string;
  v1Created : string;
  v1Container : string;
  v1ContainerConfig : Config;
  v1Architecture : string;
  v1OS : string;
  v1DockerVersion : string;
  v1Config : option Config;
  v1Size : Z
}.

(** The image configuration returned by [ic.CreateImageConfig]. *)
Record ImageConfig : Type := mkImageConfig {
  cfgImageID : string;
  cfgLayers : list ImageWithMeta
}.

(** [imagec.ImageC], as far as [Commit] uses it; a [reference.Named] is kept
    as the text of its [String()]. *)
Record ImageC : Type := mkImageC {
  Reference : option string;
  ImageLayers : list ImageWithMeta;
  ImageID : string
}.

(** The audit event [(action, type, actor{imageID, refName})]. *)
Record Event : Type := mkEvent {
  evAction : string;
  evType : string;
  evImageID : string;
  evRefName : string
}.

(** The Go runtime. *)
Record Runtime : Type := mkRuntime {
  rtGOOS : string;
  rtGOARCH : string;
  rtToUpper : string → string
}.

(** The answers of the collaborators during one [Commit]: the container
    cache and engine, the Dockerfile builder, the export proxy, the
    reference parser, the host identity, the JSON encoder, the clock and the
    persistence layers. *)
Record Engine : Type := mkEngine {
  GetContainer : string → option VicContainer;
  ContainerInspect : string → Error + option ContainerJSON;
  BuildFromConfig : option Config → list string → Error + option Config;
  ArchiveExportReader : string → string → Error + Stream;
  WithName : string → Error + string;
  WithTag : string → string → Error + string;
  UUID : Error + string;
  Marshal : V1Image → Error + string;
  Now : string;
  WriteFileErr : option Error;
  CreateImageConfig : list ImageWithMeta → Error + ImageConfig;
  SaveErr : option Error;
  WriteImageBlobErr : option Error;
  ProductName : string;
  DockerServerVersion : string
}.

(** Modelled from the spec: the layer, image and repository caches, the blob
    store reached through [WriteImageBlob] and the event service are outside
    the sources.  [Add] inserts or replaces the in-memory entry keyed by the
    identifier, [Get] returns the record or a not-found failure, [Save]
    copies the whole in-memory index to the durable one, [Commit] marks a
    layer as final, tagging maps the reference to the image identifier.
    [blobStore] and [layerFinal] list the layers handed to [WriteImageBlob]
    and to [Commit]. *)
Record World : Type := mkWorld {
  fs : FS;
  layerCache : gmap string ImageWithMeta;
  layerFinal : list ImageWithMeta;
  imageCache : gmap string ImageConfig;
  imageSaved : gmap string ImageConfig;
  repoCache : gmap string string;
  blobStore : list ImageWithMeta;
  events : list Event;
  exports : list string
}.

Definition setFs (w : World) (x : FS) : World :=
  mkWorld x (layerCache w) (layerFinal w) (imageCache w) (imageSaved w)
          (repoCache w) (blobStore w) (events w) (exports w).

Definition setLayerCache (w : World) (x : gmap string ImageWithMeta) : World :=
  mkWorld (fs w) x (layerFinal w) (imageCache w) (imageSaved w)
          (repoCache w) (blobStore w) (events w) (exports w).

Definition setLayerFinal (w : World) (x : list ImageWithMeta) : World :=
  mkWorld (fs w) (layerCache w) x (imageCache w) (imageSaved w)
          (repoCache w) (blobStore w) (events w) (exports w).

Definition setImageCache (w : World) (x : gmap string ImageConfig) : World :=
  mkWorld (fs w) (layerCache w) (layerFinal w) x (imageSaved w)
          (repoCache w) (blobStore w) (events w) (exports w).

Definition setImageSaved (w : World) (x : gmap string ImageConfig) : World :=
  mkWorld (fs w) (layerCache w) (layerFinal w) (imageCache w) x
          (repoCache w) (blobStore w) (events w) (exports w).

Definition setRepoCache (w : World) (x : gmap string string) : World :=
  mkWorld (fs w) (layerCache w) (layerFinal w) (imageCache w) (imageSaved w)
          x (blobStore w) (events w) (exports w).

Definition setBlobStore (w : World) (x : list ImageWithMeta) : World :=
  mkWorld (fs w) (layerCache w) (layerFinal w) (imageCache w) (imageSaved w)
          (repoCache w) x (events w) (exports w).

Definition setEvents (w : World) (x : list Event) : World :=
  mkWorld (fs w) (layerCache w) (layerFinal w) (imageCache w) (imageSaved w)
          (repoCache w) (blobStore w) x (exports w).

Definition setExports (w : World) (x : list string) : World :=
  mkWorld (fs w) (layerCache w) (layerFinal w) (imageCache w) (imageSaved w)
          (repoCache w) (blobStore w) (events w) x.

(** How a call ends: a result, an error, a run-time panic, or a chain walk
    still going after the allotted number of iterations. *)
Inductive outcome (A : Type) : Type :=
| Ok (a : A)
| Fail (e : Error)
| Panic
| Unfinished.

Arguments Ok {A} a.
Arguments Fail {A} e.
Arguments Panic {A}.
Arguments Unfinished {A}.

(** The chain walk after some iterations: left through its condition, left
    through its [return], or about to enter the body again with the current
    [lm] and [layers]. *)
Inductive walk : Type :=
| WalkDone (lm : ImageWithMeta) (layers : list ImageWithMeta)
| WalkFail (e : Error)
| WalkPending (lm : ImageWithMeta) (layers : list ImageWithMeta).

(** [imagec.LayerCache().Get]. *)
Definition layerCacheGet (w : World) (id : string) : Error + ImageWithMeta :=
  match layerCache w !! id with
  | Some lm => inr lm
  | None => inl (NotFoundError ("layer " ++ id ++ " is not cached"))
  end.

(** ** [getImagec], [setLayerConfig] and [Commit] *)

Section Commit.
Variable rt : Runtime.
Variable eng : Engine.
Variable codec : Codec.
Variable host : Host.

(** Lines 162-184.  [imageRef] is declared on line 163 and read on lines
    176 and 180; no line assigns it. *)
Definition getImagec (config : ContainerCommitConfig) : Error + ImageC :=
  let imageRef : option string := None in
  let checked : Error + unit :=
    if negb (String.eqb (Repo config) "") then
      match WithName eng (Repo config) with
      | inl e => inl e
      | inr newTag =>
          if negb (String.eqb (Tag config) "") then
            match WithTag eng newTag (Tag config) with
            | inl e => inl e
            | inr _ => inr tt
            end
          else inr tt
      end
    else inr tt in
  match checked with
  | inl e => inl e
  | inr _ =>
      inr {| Reference := imageRef; ImageLayers := []; ImageID := "" |}
  end.

(** Lines 186-228.  [lm] is [nil] when [downloadDiff] failed, and its
    [lm.Image] is [nil] when [downloadDiff] succeeded: either way reading
    [lm.ID] on line 187 panics, as does [vc.LayerID] for a container missing
    from the cache. *)
Definition setLayerConfig (lm : option ImageWithMeta) (container : ContainerJSON)
    (config : ContainerCommitConfig) (newConfig : option Config)
  : outcome ImageWithMeta :=
  match lm with
  | None => Panic
  | Some lm =>
      match lmID lm with
      | None => Panic
      | Some lmID =>
          match UUID eng with
          | inl e =>
              Fail (InternalServerError
                      ("Failed to get host name: " ++ errorString e))
          | inr hostID =>
              match GetContainer eng (cjID container) with
              | None => Panic
              | Some vc =>
                  let meta :=
                    {| v1ID := lmID; v1Parent := vcLayerID vc;
                       v1Comment := Comment config; v1Created := Now eng;
                       v1Container := cjID container;
                       v1ContainerConfig := cjConfig container;
                       v1Architecture := rtGOARCH rt; v1OS := rtGOOS rt;
                       v1DockerVersion := DockerServerVersion eng;
                       v1Config := newConfig; v1Size := lmSize lm |} in
                  match Marshal eng meta with
                  | inl e =>
                      Fail (InternalServerError
                              ("Failed to marshal image layer config: "
                               ++ errorString e))
                  | inr m =>
                      Ok {| lmImage := Some {| imgID := lmID;
                                               imgParent := vcImageID vc;
                                               imgStore := hostID |};
                            lmDiffID := lmDiffID lm;
                            lmBlobSum := lmBlobSum lm; lmMeta := m;
                            lmSize := lmSize lm |}
                  end
              end
          end
      end
  end.

(** Lines 118-124.  The [for] clause has an init statement and a
    condition, no post statement: [pl] keeps its first value. *)
Fixpoint chainWalk (fuel : nat) (w : World) (pl : string)
    (lm : ImageWithMeta) (layers : list ImageWithMeta) : walk :=
  if String.eqb pl ScratchLayerID then WalkDone lm layers
  else
    match fuel with
    | O => WalkPending lm layers
    | S fuel' =>
        match layerCacheGet w pl with
        | inl err =>
            WalkFail (InternalServerError
                        ("Failed to get parent image layer " ++ pl ++ ": "
                         ++ errorString err))
        | inr lm' => chainWalk fuel' w pl lm' (layers ++ [lm'])
        end
    end.

(** Lines 126-159. *)
Definition commitImage (ic : ImageC) (lm : ImageWithMeta)
    (layers : list ImageWithMeta) (w : World) : outcome string * World :=
  match CreateImageConfig eng layers with
  | inl e => (Fail e, w)
  | inr imageConfig =>
      let w := setImageCache w (<[cfgImageID imageConfig := imageConfig]> (imageCache w)) in
      match SaveErr eng with
      | Some e => (Fail (PlainError ("error saving image cache: " ++ errorString e)), w)
      | None =>
          let w := setImageSaved w (imageCache w) in
          let w :=
            match Reference ic with
            | Some ref => setRepoCache w (<[ref := cfgImageID imageConfig]> (repoCache w))
            | None => w
            end in
          match WriteImageBlobErr eng with
          | Some e => (Fail e, w)
          | None =>
              let w := setBlobStore w (blobStore w ++ [lm]) in
              let w := setLayerFinal w (layerFinal w ++ [lm]) in
              let refName :=
                match Reference ic with
                | Some ref => ref
                | None => ""
                end in
              (Ok (cfgImageID imageConfig),
               setEvents w (events w ++
                 [{| evAction := "commit"; evType := "image";
                     evImageID := cfgImageID imageConfig;
                     evRefName := refName |}]))
          end
      end
  end.

(** Lines 102-124: from [downloadDiff] to the end of the chain walk.
    Lines 108 and 118 read [lm.ID] and [lm.Parent] through [lm.Image]. *)
Definition commitLayer (fuel : nat) (ic : ImageC) (rc : Stream)
    (container : ContainerJSON) (config : ContainerCommitConfig)
    (newConfig : option Config) (w : World) : outcome string * World :=
  let '(diff, fs1) := downloadDiff codec host rc (cjID container) (fs w) in
  let w := setFs w fs1 in
  let lm := match diff with inl _ => None | inr lm => Some lm end in
  match setLayerConfig lm container config newConfig with
  | Fail e => (Fail e, w)
  | Panic => (Panic, w)
  | Unfinished => (Unfinished, w)
  | Ok lm =>
      match lmImage lm with
      | None => (Panic, w)
      | Some im =>
          let destination := pathJoin (DestinationDirectory host) (imgID im) in
          match WriteFileErr eng with
          | Some e => (Fail e, w)
          | None =>
              let w :=
                setFs w (writeFile (pathJoin destination (imgID im ++ ".json"))
                                   (list_byte_of_string (lmMeta lm)) (fs w)) in
              let w := setLayerCache w (<[imgID im := lm]> (layerCache w)) in
              match chainWalk fuel w (imgParent im) lm [lm] with
              | WalkFail e => (Fail e, w)
              | WalkPending _ _ => (Unfinished, w)
              | WalkDone lm layers => commitImage ic lm layers w
              end
          end
      end
  end.

(** Lines 58-160.  [fuel] bounds the iterations of the chain walk.
    [BuildFromConfig] may hand back a [nil] configuration with no error,
    and [merge] reads [userConf.User] first (line 368): a panic for a [nil]
    configuration. *)
Definition Commit (fuel : nat) (name : string) (config : ContainerCommitConfig)
    (w : World) : outcome string * World :=
  match GetContainer eng name with
  | None => (Fail (NotFoundError name), w)
  | Some vc =>
      match ContainerInspect eng name with
      | inl e => (Fail (InternalServerError (errorString e)), w)
      | inr None => (Fail (InternalServerError "Container type assertion failed"), w)
      | inr (Some container) =>
          if cjRunning container || cjRestarting container then
            (Fail (ConflictError
                     (ProductName eng ++ " does not support commit of a running container")),
             w)
          else
            match BuildFromConfig eng (CommitConf config) (Changes config) with
            | inl e => (Fail e, w)
            | inr newConfig =>
                let merged : outcome (option Config) :=
                  if MergeConfigs config then
                    match newConfig with
                    | None => Panic
                    | Some userConf =>
                        Ok (Some (merge (rtGOOS rt) (rtToUpper rt) userConf
                                        (cjConfig container)))
                    end
                  else Ok newConfig in
                match merged with
                | Fail e => (Fail e, w)
                | Panic => (Panic, w)
                | Unfinished => (Unfinished, w)
                | Ok newConfig =>
                    let w := setExports w (exports w ++ [vcContainerID vc]) in
                    match ArchiveExportReader eng (vcContainerID vc) (vcLayerID vc) with
                    | inl _ =>
                        (Fail (PlainError
                                 ("Unable to initialize export stream reader for container "
                                  ++ name)), w)
                    | inr rc =>
                        match getImagec config with
                        | inl e => (Fail e, w)
                        | inr ic => commitLayer fuel ic rc container config newConfig w
                        end
                    end
                end
            end
      end
  end.
End Commit.

(** The name under which an environment entry is compared. *)
Definition envName (os : string) (up : string → string) (k : string) : string :=
  if String.eqb os "windows" then up k else k.

(** The name of an environment entry: the text left of its ['='], as it is
    compared. *)
Definition entryName (os : string) (up : string → string) (e : string) : string :=
  envName os up (splitHead e).

(** The base entries that [merge] appends to a non-empty user list: an entry
    is skipped when its name is among [seen], the names of the user entries
    and of the base entries appended before it. *)
Fixpoint inherited (name : string → string) (seen : list string)
    (imageEnv : list string) : list string :=
  match imageEnv with
  | [] => []
  | e :: rest =>
      if existsb (String.eqb (name e)) seen then inherited name seen rest
      else e :: inherited name (seen ++ [name e]) rest
  end.

(** The environment list in the words of the specification: every user
    entry, then every base entry whose name matches no user entry. *)
Definition envAsSpecified (name : string → string) (userEnv imageEnv : list string)
  : list string :=
  userEnv ++
  List.filter (λ e, negb (existsb (String.eqb (name e)) (map name userEnv))) imageEnv.

(** The sum of the sizes of the entries of an archive, as a number. *)
Fixpoint totalSize (items : list TarItem) : Z :=
  match items with
  | [] => 0
  | TarHeader size :: rest => size + totalSize rest
  | TarFailure _ :: rest => totalSize rest
  end.

(** The archive that [downloadDiff] reads back from the temporary file. *)
Definition archiveOf (codec : Codec) (rc : Stream) : list TarItem :=
  tarNext codec (gzipBytes codec (streamData rc)).

(** The final place of the blob of a materialisation. *)
Definition blobPath (host : Host) : string :=
  pathJoin (pathJoin (DestinationDirectory host) (GenerateRandomID host))
           (GenerateRandomID host ++ ".tar").

(** ** Sample collaborators, to run the code on *)

(** A stand-in codec: every byte of the file is one archive entry of that
    many bytes. *)
Definition sampleCodec : Codec :=
  {| sha256Sum := λ d, rev d;
     gzipBytes := λ d, d;
     gzipNewReader := λ _, None;
     tarNext := λ d, map (λ b, TarHeader (Z.of_N (Byte.to_N b))) d |}.

Definition sampleHost : Host :=
  {| GenerateRandomID := "4f1a";
     TempFileName := λ prefix, ("/tmp/" ++ prefix ++ "001")%string;
     TempFileErr := None; CopyErr := None; PartialBytes := [];
     OpenErr := None; MkdirAllErr := None; MkdirAllMade := 0; RenameErr := None;
     DestinationDirectory := "/images" |}.


Definition renameFailsHost : Host :=
  {| GenerateRandomID := "4f1a";
     TempFileName := λ prefix, ("/tmp/" ++ prefix ++ "001")%string;
     TempFileErr := None; CopyErr := None; PartialBytes := [];
     OpenErr := None; MkdirAllErr := None; MkdirAllMade := 0;
     RenameErr := Some (PlainError "rename: cross-device link");
     DestinationDirectory := "/images" |}.

Definition emptyFS : FS := {| files := ∅; dirs := ∅ |}.

Definition busyFS : FS :=
  {| files := {[ "/images/old/old.tar" := [x01; x02]%byte ]};
     dirs := {[ "/images/old" ]} |}.

Definition emptyArchive : Stream := {| streamData := []; streamErr := None |}.

Definition zeroSizeArchive : Stream :=
  {| streamData := [x00; x00]%byte; streamErr := None |}.

Definition smallArchive : Stream :=
  {| streamData := [x03; x00; x61]%byte; streamErr := None |}.

(** The chain walk in the words of the specification: each parent is looked
    up in the layer cache and the walk moves on to the parent of the layer
    found, until the scratch sentinel. *)
Fixpoint chainAsSpecified (fuel : nat) (w : World) (pl : string)
    (layers : list ImageWithMeta) : option (list ImageWithMeta) :=
  if String.eqb pl ScratchLayerID then Some layers
  else
    match fuel with
    | O => None
    | S fuel' =>
        match layerCache w !! pl with
        | None => None
        | Some lm' =>
            match lmParent lm' with
            | None => None
            | Some parent => chainAsSpecified fuel' w parent (layers ++ [lm'])
            end
        end
    end.

Definition sampleRuntime : Runtime :=
  {| rtGOOS := "linux"; rtGOARCH := "amd64"; rtToUpper := upperASCII |}.

Definition stoppedContainer : ContainerJSON :=
  {| cjID := "c1f0"; cjRunning := false; cjRestarting := false;
     cjConfig := emptyConfig |}.

Definition runningContainer : ContainerJSON :=
  {| cjID := "c1f0"; cjRunning := true; cjRestarting := false;
     cjConfig := emptyConfig |}.

(** An engine that knows one container, called ["web"], created from the
    image [parentImage], whose export delivers [export]. *)
Definition sampleEngine (container : ContainerJSON) (parentImage : string)
    (export : Stream) : Engine :=
  {| GetContainer := λ n,
       if String.eqb n "web" || String.eqb n (cjID container)
       then Some {| vcContainerID := cjID container; vcLayerID := "layer0";
                    vcImageID := parentImage |}
       else None;
     ContainerInspect := λ _, inr (Some container);
     BuildFromConfig := λ c _, inr c;
     ArchiveExportReader := λ _ _, inr export;
     WithName := λ r, inr r;
     WithTag := λ n t, inr (n ++ ":" ++ t)%string;
     UUID := inr "564d395e-d807";
     Marshal := λ m, inr ("{" ++ v1Parent m ++ "}")%string;
     Now := "2017-06-01T00:00:00Z";
     WriteFileErr := None;
     CreateImageConfig := λ layers,
       inr {| cfgImageID := "sha256:1234"; cfgLayers := layers |};
     SaveErr := None;
     WriteImageBlobErr := None;
     ProductName := "vSphere Integrated Containers";
     DockerServerVersion := "1.13" |}.

Definition emptyWorld : World :=
  mkWorld emptyFS ∅ [] ∅ ∅ ∅ [] [] [].

Definition taggedCommit : ContainerCommitConfig :=
  {| Repo := "myrepo"; Tag := "v1"; Comment := "snapshot"; Changes := [];
     MergeConfigs := true; CommitConf := Some emptyConfig |}.

Definition untaggedCommit : ContainerCommitConfig :=
  {| Repo := ""; Tag := ""; Comment := ""; Changes := [];
     MergeConfigs := true; CommitConf := Some emptyConfig |}.

Definition brokenStream : Stream :=
  {| streamData := [x03]%byte;
     streamErr := Some (PlainError "unexpected EOF") |}.

Definition layerL1 : ImageWithMeta :=
  mkLayer (Some (mkImage "L1" "scratch" "")) "" "" "" 0.
Definition layerL2 : ImageWithMeta :=
  mkLayer (Some (mkImage "L2" "L1" "")) "" "" "" 0.
Definition layerL3 : ImageWithMeta :=
  mkLayer (Some (mkImage "L3" "L2" "")) "" "" "" 0.

Definition chainWorld : World :=
  setLayerCache emptyWorld (<["L2" := layerL2]> (<["L1" := layerL1]> ∅)).

(** ** Go strings by index *)

(** [s[:n]] and [s[n:]] on the bytes of a string, without the bounds check. *)
Fixpoint strTake (n : nat) (s : string) : string :=
  match n, s with
  | S n', String c rest => String c (strTake n' rest)
  | _, _ => EmptyString
  end.

Fixpoint strDrop (n : nat) (s : string) : string :=
  match n, s with
  | S n', String _ rest => strDrop n' rest
  | _, _ => s
  end.

(** [s[lo:hi]]: a run-time panic unless [lo <= hi <= len(s)]. *)
Definition strSlice (s : string) (lo hi : nat) : option string :=
  if Nat.leb lo hi && Nat.leb hi (String.length s)
  then Some (strTake (hi - lo) (strDrop lo s))
  else None.

(** [strings.HasPrefix]. *)
Fixpoint HasPrefix (s prefix : string) : bool :=
  match prefix, s with
  | EmptyString, _ => true
  | String p prefix', String c s' => Ascii.eqb c p && HasPrefix s' prefix'
  | String _ _, EmptyString => false
  end.

(** [strings.Replace(s, " ", "", -1)]. *)
Fixpoint removeSpaces (s : string) : string :=
  match s with
  | EmptyString => EmptyString
  | String c rest =>
      if Ascii.eqb c " "%char then removeSpaces rest
      else String c (removeSpaces rest)
  end.

(** ** Package [guest]: the identity of the hosting machine *)

Module guest.

Definition UUIDPath : string := "/sys/class/dmi/id/product_serial".
Definition UUIDPrefix : string := "VMware-".

(** Lines 205-225.  [serial] is what [ioutil.ReadFile(UUIDPath)] returns;
    the slice expressions of lines 219 and 222 panic when out of range. *)
Definition UUID (serial : Error + string) : outcome string :=
  match serial with
  | inl err => Fail err
  | inr id =>
      let uuidstr := id in
      if negb (HasPrefix uuidstr UUIDPrefix)
      then Fail (PlainError "cannot find this VM's UUID")
      else
        match strSlice uuidstr (String.length UUIDPrefix) (String.length uuidstr - 1) with
        | None => Panic
        | Some body =>
            let uuidstr := removeSpaces body in
            match strSlice uuidstr 0 8, strSlice uuidstr 8 12,
                  strSlice uuidstr 12 21,
                  strSlice uuidstr 21 (String.length uuidstr) with
            | Some a, Some b, Some c, Some d =>
                Ok (a ++ "-" ++ b ++ "-" ++ c ++ "-" ++ d)%string
            | _, _, _, _ => Panic
            end
        end
  end.

(** Lines 228-246.  [FindByUuid] is the search index of the session: an
    error, no reference, or the reference of the machine found. *)
Definition GetSelf (serial : Error + string)
    (FindByUuid : string → Error + option string) : outcome string :=
  match UUID serial with
  | Ok u =>
      match FindByUuid u with
      | inl err => Fail err
      | inr None => Fail (PlainError "can't find the hosting vm")
      | inr (Some ref) => Ok ref
      end
  | Fail err => Fail err
  | Panic => Panic
  | Unfinished => Unfinished
  end.

End guest.

(** ** Package [portlayer]: start-up *)

Module portlayer.

(** The calls that [Init] makes to the components it starts, in the order
    made. *)
Inductive InitStep : Type :=
| DecodeStorageConfig
| InitTasksErrorHandler
| StoreInit (vmFolder : string)
| ExecInit
| NetworkInit
| LoggingInit
| SerialPorts.

(** What the collaborators of [Init] answer. *)
Record Boot : Type := mkBoot {
  GuestInfoSource : option Error;
  GuestInfoSink : option Error;
  ProductSerial : Error + string;
  FindByUuid : string → Error + option string;
  VMPathName : string → Error + string;
  Dir : string → string;
  ToURL : string → Error + string;
  storeInit : string → option Error;
  execInit : option Error;
  networkInit : option Error;
  loggingInit : option Error
}.

(** Lines 47-104. *)
Definition Init (b : Boot) : outcome unit * list InitStep :=
  match GuestInfoSource b with
  | Some err => (Fail err, [])
  | None =>
  match GuestInfoSink b with
  | Some err => (Fail err, [])
  | None =>
  let log := [DecodeStorageConfig] in
  match guest.GetSelf (ProductSerial b) (FindByUuid b) with
  | Fail err => (Fail err, log)
  | Panic => (Panic, log)
  | Unfinished => (Unfinished, log)
  | Ok vch =>
  let log := log ++ [InitTasksErrorHandler] in
  match VMPathName b vch with
  | inl err => (Fail err, log)
  | inr vmPath =>
  match ToURL b (Dir b vmPath) with
  | inl err => (Fail err, log)
  | inr vmFolder =>
  let log := log ++ [StoreInit vmFolder] in
  match storeInit b vmFolder with
  | Some err => (Fail err, log)
  | None =>
  let log := log ++ [ExecInit] in
  match execInit b with
  | Some err => (Fail err, log)
  | None =>
  let log := log ++ [NetworkInit] in
  match networkInit b with
  | Some err => (Fail err, log)
  | None =>
  let log := log ++ [LoggingInit] in
  match loggingInit b with
  | Some err => (Fail err, log)
  | None => (Ok tt, log ++ [SerialPorts])
  end end end end end end end end end.

(** The calls that the operation of [TakeCareOfSerialPorts] makes on the
    handles of one container. *)
Inductive HandleCall : Type :=
| CallNewHandle
| CallUnbind (h : string)
| CallBind (h : string)
| CallCommit (h : string).

(** One running container of the cache: its identifier when it has an
    execution configuration, and what the handle operations answer.  A
    handle returned as an interface value is [None] when it is not an
    [*exec.Handle]. *)
Record Container : Type := mkContainer {
  ExecConfigID : option string;
  NewHandle : option string;
  Unbind : string → Error + option string;
  Bind : string → Error + option string;
  HandleCommit : string → option Error
}.

(** Lines 120-124. *)
Definition containerID (c : Container) : string :=
  match ExecConfigID c with Some id => id | None => "" end.

(** Lines 127-177: one run of [operation]. *)
Definition operation (c : Container) : option Error * list HandleCall :=
  let containerID := containerID c in
  match NewHandle c with
  | None =>
      (Some (PlainError ("unable to obtain a handle for container " ++ containerID)),
       [CallNewHandle])
  | Some handle =>
      match Unbind c handle with
      | inl err =>
          (Some (PlainError ("unable to unbind serial port for container "
                             ++ containerID ++ ": " ++ errorString err)),
           [CallNewHandle; CallUnbind handle])
      | inr None =>
          (Some (PlainError ("handle type assertion failed for container "
                             ++ containerID)),
           [CallNewHandle; CallUnbind handle])
      | inr (Some execHandle) =>
          match Bind c execHandle with
          | inl err =>
              (Some (PlainError ("unable to unbind serial port for container "
                                 ++ containerID ++ ": " ++ errorString err)),
               [CallNewHandle; CallUnbind handle; CallBind execHandle])
          | inr None =>
              (Some (PlainError ("handle type assertion failed for container "
                                 ++ containerID)),
               [CallNewHandle; CallUnbind handle; CallBind execHandle])
          | inr (Some execHandle') =>
              (HandleCommit c execHandle',
               [CallNewHandle; CallUnbind handle; CallBind execHandle;
                CallCommit execHandle'])
          end
      end
  end.

End portlayer.

(** The sample engine with a reference parser that accepts no name. *)
Definition strictEngine : Engine :=
  mkEngine (GetContainer (sampleEngine stoppedContainer "scratch" smallArchive))
           (ContainerInspect (sampleEngine stoppedContainer "scratch" smallArchive))
           (BuildFromConfig (sampleEngine stoppedContainer "scratch" smallArchive))
           (ArchiveExportReader (sampleEngine stoppedContainer "scratch" smallArchive))
           (λ _, inl (PlainError "invalid reference format"))
           (λ n t, inr (n ++ ":" ++ t)%string)
           (inr "564d395e-d807") (λ m, inr (v1Parent m)) "2017-06-01T00:00:00Z"
           None (λ layers, inr {| cfgImageID := "sha256:1234"; cfgLayers := layers |})
           None None "vSphere Integrated Containers" "1.13".

(** The characters of a product serial between its prefix and its last
    byte, spaces left out. *)
Definition serialDigits (id : string) : string :=
  removeSpaces (strTake (String.length id - 8) (strDrop 7 id)).

(** A product serial as the BIOS prints it: the prefix, eight groups of two
    characters separated by spaces, a dash, eight more groups, a line feed. *)
Definition pairText (p : ascii * ascii) : string :=
  String (fst p) (String (snd p) EmptyString).

Fixpoint spaced (ps : list (ascii * ascii)) : string :=
  match ps with
  | [] => EmptyString
  | [p] => pairText p
  | p :: rest => (pairText p ++ " " ++ spaced rest)%string
  end.

Fixpoint packed (ps : list (ascii * ascii)) : string :=
  match ps with
  | [] => EmptyString
  | p :: rest => (pairText p ++ packed rest)%string
  end.

Definition productSerial (hi lo : list (ascii * ascii)) : string :=
  ("VMware-" ++ spaced hi ++ "-" ++ spaced lo ++ String "010"%char EmptyString)%string.

Definition noSpace (p : ascii * ascii) : bool :=
  negb (Ascii.eqb (fst p) " "%char) && negb (Ascii.eqb (snd p) " "%char).

(** The calls of a complete start-up. *)
Definition startSequence (vmFolder : string) : list portlayer.InitStep :=
  [portlayer.DecodeStorageConfig; portlayer.InitTasksErrorHandler;
   portlayer.StoreInit vmFolder; portlayer.ExecInit; portlayer.NetworkInit;
   portlayer.LoggingInit; portlayer.SerialPorts].

Definition sampleSerialHi : list (ascii * ascii) :=
  [("5", "6"); ("4", "d"); ("3", "9"); ("5", "e");
   ("d", "8"); ("0", "7"); ("e", "1"); ("8", "a")]%char.

Definition sampleSerialLo : list (ascii * ascii) :=
  [("c", "b"); ("2", "5"); ("b", "7"); ("9", "f");
   ("6", "5"); ("e", "b"); ("2", "b"); ("9", "f")]%char.

Definition sampleBoot : portlayer.Boot :=
  {| portlayer.GuestInfoSource := None;
     portlayer.GuestInfoSink := None;
     portlayer.ProductSerial := inr (productSerial sampleSerialHi sampleSerialLo);
     portlayer.FindByUuid := λ u,
       if String.eqb u "564d395e-d807-e18a-cb25-b79f65eb2b9f"
       then inr (Some "vm-42") else inr None;
     portlayer.VMPathName := λ _, inr "[ds1] vch/vch.vmx";
     portlayer.Dir := λ _, "[ds1] vch";
     portlayer.ToURL := λ d, inr ("ds://" ++ d)%string;
     portlayer.storeInit := λ _, None;
     portlayer.execInit := None;
     portlayer.networkInit := None;
     portlayer.loggingInit := None |}.

Definition sampleContainer : portlayer.Container :=
  {| portlayer.ExecConfigID := Some "c1f0";
     portlayer.NewHandle := Some "h0";
     portlayer.Unbind := λ h, inr (Some (h ++ "-unbound")%string);
     portlayer.Bind := λ h, inr (Some (h ++ "-bound")%string);
     portlayer.HandleCommit := λ _, None |}.

(** * Properties *)

(** ** Environment entries *)

Section EnvFacts.
Variable os : string.
Variable up : string → string.
Hypothesis up_idem : os = "windows" → ∀ s, up (up s) = up s.

Local Abbreviation key := (entryName os up).

Lemma envName_idem k : envName os up (envName os up k) = envName os up k.
Proof.
  unfold envName. destruct (String.eqb_spec os "windows") as [Hw|Hw]; [|done].
  by apply up_idem.
Qed.

Lemma envFound_existsb k userEnv :
  envFound os up k userEnv
  = existsb (λ u, String.eqb (envName os up k) (key u)) userEnv.
Proof.
  revert k. induction userEnv as [|u rest IH]; intros k; [done|].
  cbn [envFound existsb]. fold (envName os up k).
  fold (envName os up (splitHead u)). fold (key u).
  destruct (String.eqb (envName os up k) (key u)); [done|].
  cbn [orb]. rewrite IH. by rewrite envName_idem.
Qed.

Lemma envFound_names e userEnv :
  envFound os up (splitHead e) userEnv
  = existsb (String.eqb (key e)) (map key userEnv).
Proof.
  rewrite envFound_existsb. fold (key e).
  induction userEnv as [|u rest IH]; [done|].
  cbn [existsb map]. by rewrite IH.
Qed.

Lemma mergeEnvLoop_inherited userEnv imageEnv :
  mergeEnvLoop os up userEnv imageEnv
  = userEnv ++ inherited key (map key userEnv) imageEnv.
Proof.
  revert userEnv. induction imageEnv as [|e rest IH]; intros userEnv.
  - cbn. by rewrite app_nil_r.
  - cbn [mergeEnvLoop inherited]. rewrite envFound_names.
    destruct (existsb (String.eqb (key e)) (map key userEnv)).
    + apply IH.
    + rewrite IH, map_app. cbn [map]. by rewrite <- app_assoc.
Qed.

Lemma envFound_app_l k l1 l2 :
  envFound os up k l1 = true → envFound os up k (l1 ++ l2) = true.
Proof.
  rewrite !envFound_existsb, existsb_app. by intros ->.
Qed.

Lemma envFound_self e l1 l2 :
  envFound os up (splitHead e) (l1 ++ e :: l2) = true.
Proof.
  rewrite envFound_existsb, existsb_app. cbn [existsb].
  fold (key e). rewrite String.eqb_refl. by rewrite orb_true_r.
Qed.

Lemma mergeEnvLoop_prefix userEnv imageEnv :
  ∃ added, mergeEnvLoop os up userEnv imageEnv = userEnv ++ added.
Proof.
  rewrite mergeEnvLoop_inherited. eauto.
Qed.

(** Every image entry is found in the merged list. *)
Lemma mergeEnvLoop_covers userEnv imageEnv e :
  e ∈ imageEnv →
  envFound os up (splitHead e) (mergeEnvLoop os up userEnv imageEnv) = true.
Proof.
  revert userEnv. induction imageEnv as [|e0 rest IH]; intros userEnv Hin.
  - by apply elem_of_nil in Hin.
  - cbn [mergeEnvLoop]. apply elem_of_cons in Hin as [->|Hin].
    + destruct (envFound os up (splitHead e0) userEnv) eqn:Hf.
      * destruct (mergeEnvLoop_prefix userEnv rest) as [added ->].
        by apply envFound_app_l.
      * destruct (mergeEnvLoop_prefix (userEnv ++ [e0]) rest) as [added ->].
        rewrite <- app_assoc. apply envFound_self.
    + destruct (envFound os up (splitHead e0) userEnv); by apply IH.
Qed.

Lemma mergeEnvLoop_fixed userEnv imageEnv :
  (∀ e, e ∈ imageEnv → envFound os up (splitHead e) userEnv = true) →
  mergeEnvLoop os up userEnv imageEnv = userEnv.
Proof.
  induction imageEnv as [|e rest IH]; intros Hall; [done|].
  cbn [mergeEnvLoop]. rewrite Hall by (apply elem_of_cons; by left).
  apply IH. intros e' He'. apply Hall. apply elem_of_cons; by right.
Qed.

Lemma mergeEnvLoop_nonempty userEnv imageEnv :
  userEnv ≠ [] → mergeEnvLoop os up userEnv imageEnv ≠ [].
Proof.
  intros Hne. destruct (mergeEnvLoop_prefix userEnv imageEnv) as [added ->].
  by destruct userEnv.
Qed.

Lemma mergeEnv_idem (userEnv imageEnv : slice string) :
  mergeEnv os up (mergeEnv os up userEnv imageEnv) imageEnv
  = mergeEnv os up userEnv imageEnv.
Proof.
  unfold mergeEnv at 2 3.
  destruct (Nat.eqb_spec (len userEnv) 0) as [Hu|Hu].
  - unfold mergeEnv. destruct (Nat.eqb_spec (len imageEnv) 0) as [Hi|Hi]; [done|].
    f_equal. destruct imageEnv as [l|]; [|done]. cbn [elems].
    f_equal. apply mergeEnvLoop_fixed. intros e He.
    apply list_elem_of_split in He as (l1 & l2 & ->). apply envFound_self.
  - unfold mergeEnv. cbn [len elems].
    destruct userEnv as [ul|]; [|done]. cbn [len elems] in *.
    assert (mergeEnvLoop os up ul (elems imageEnv) ≠ []) as Hne.
    { apply mergeEnvLoop_nonempty. by destruct ul. }
    destruct (mergeEnvLoop os up ul (elems imageEnv)) as [|x xs] eqn:Hm; [done|].
    cbn [length Nat.eqb]. f_equal. rewrite <- Hm.
    apply mergeEnvLoop_fixed. intros e He. by apply mergeEnvLoop_covers.
Qed.

(** Without two base entries of the same name, the appended entries are
    those the specification names. *)
Lemma inherited_filter seen seen' imageEnv :
  NoDup (map key imageEnv) →
  (∀ e, e ∈ imageEnv →
        existsb (String.eqb (key e)) seen' = existsb (String.eqb (key e)) seen) →
  inherited key seen' imageEnv
  = List.filter (λ e, negb (existsb (String.eqb (key e)) seen)) imageEnv.
Proof.
  revert seen'. induction imageEnv as [|e rest IH]; intros seen' Hnd Hagree; [done|].
  cbn [map] in Hnd. apply NoDup_cons in Hnd as [Hnotin Hnd].
  cbn [inherited List.filter]. rewrite (Hagree e) by (apply elem_of_cons; by left).
  destruct (existsb (String.eqb (key e)) seen) eqn:Hseen; cbn [negb].
  - apply IH; [done|]. intros e' He'. apply Hagree. apply elem_of_cons; by right.
  - f_equal. apply IH; [done|]. intros e' He'.
    rewrite existsb_app. cbn [existsb]. rewrite orb_false_r.
    rewrite (Hagree e') by (apply elem_of_cons; by right).
    destruct (String.eqb_spec (key e') (key e)) as [Heq|Hneq].
    + exfalso. apply Hnotin. rewrite <- Heq. by apply list_elem_of_fmap_2.
    + by rewrite orb_false_r.
Qed.
End EnvFacts.

Lemma asciiUpper_idem c : asciiUpper (asciiUpper c) = asciiUpper c.
Proof. by destruct c as [[] [] [] [] [] [] [] []]. Qed.

Lemma upperASCII_idem s : upperASCII (upperASCII s) = upperASCII s.
Proof.
  induction s as [|c s IH]; [done|].
  cbn [upperASCII]. by rewrite asciiUpper_idem, IH.
Qed.

(** ** The range loops over maps *)

Lemma keep_union_step {V} (us m : gmap string V) k v :
  m !! k = None →
  match (us ∪ m) !! k with
  | Some _ => us ∪ m
  | None => <[k := v]> (us ∪ m)
  end = us ∪ <[k := v]> m.
Proof.
  intros Hk. destruct ((us ∪ m) !! k) as [x|] eqn:Hl.
  - apply lookup_union_Some_raw in Hl as [Hl|[_ Hl]]; [|congruence].
    apply map_eq. intros j. rewrite !lookup_union.
    destruct (decide (k = j)) as [<-|Hne].
    + by rewrite lookup_insert_eq, Hl, Hk.
    + by rewrite lookup_insert_ne.
  - apply lookup_union_None in Hl as [Hl _]. by rewrite insert_union_r.
Qed.

Lemma fold_keep_union {V} (us im : gmap string V) :
  map_fold (λ k v acc, match acc !! k with
                       | Some _ => acc
                       | None => <[k := v]> acc
                       end) us im
  = us ∪ im.
Proof.
  apply (map_fold_weak_ind (λ r m, r = us ∪ m)).
  - by rewrite (right_id_L ∅ (∪)).
  - intros k v m r Hk ->. by apply keep_union_step.
Qed.

Lemma fold_port_union (us im : gmap string unit) :
  map_fold (λ port _ acc, match acc !! port with
                          | Some _ => acc
                          | None => <[port := tt]> acc
                          end) us im
  = us ∪ im.
Proof.
  apply (map_fold_weak_ind (λ r m, r = us ∪ m)).
  - by rewrite (right_id_L ∅ (∪)).
  - intros k [] m r Hk ->. by apply keep_union_step.
Qed.

Lemma fold_insert_union {V} (us im : gmap string V) :
  map_fold (λ k v acc, <[k := v]> acc) us im = im ∪ us.
Proof.
  apply (map_fold_weak_ind (λ r m, r = m ∪ us)).
  - by rewrite (left_id_L ∅ (∪)).
  - intros k v m r Hk ->. by rewrite insert_union_l.
Qed.

Lemma size_union_l_nonzero {V} (a b : gmap string V) :
  size a ≠ 0 → size (a ∪ b) ≠ 0.
Proof.
  intros Ha Hab. apply Ha. apply map_size_empty_iff.
  apply map_size_empty_iff in Hab. by apply map_positive_l in Hab.
Qed.

Lemma size_union_r_nonzero {V} (a b : gmap string V) :
  size b ≠ 0 → size (a ∪ b) ≠ 0.
Proof.
  intros Hb Hab. apply Hb. apply map_size_empty_iff.
  apply map_size_empty_iff in Hab.
  apply map_eq. intros k. rewrite lookup_empty.
  assert ((a ∪ b) !! k = None) as Hk by (by rewrite Hab, lookup_empty).
  by apply lookup_union_None in Hk as [_ Hk].
Qed.

Lemma union_absorb_r {V} (a b : gmap string V) : (a ∪ b) ∪ b = a ∪ b.
Proof. by rewrite <- (assoc_L (∪)), (idemp_L (∪)). Qed.

Lemma union_absorb_l {V} (a b : gmap string V) : a ∪ (a ∪ b) = a ∪ b.
Proof. by rewrite (assoc_L (∪)), (idemp_L (∪)). Qed.

Lemma mergePorts_idem (user image : option (gmap string unit)) :
  mergePorts (mergePorts user image) image = mergePorts user image.
Proof.
  unfold mergePorts at 2 3.
  destruct (Nat.eqb_spec (maplen user) 0) as [Hu|Hu].
  - unfold mergePorts. destruct (Nat.eqb (maplen image) 0); [done|].
    destruct image as [im|]; [|done].
    by rewrite fold_port_union, (idemp_L (∪)).
  - destruct user as [us|]; [|done]. cbn [maplen] in Hu.
    destruct image as [im|].
    + rewrite fold_port_union. unfold mergePorts. cbn [maplen].
      destruct (Nat.eqb_spec (size (us ∪ im)) 0) as [Hz|_].
      * by apply size_union_l_nonzero in Hz.
      * by rewrite fold_port_union, union_absorb_r.
    + unfold mergePorts. cbn [maplen]. by destruct (Nat.eqb_spec (size us) 0).
Qed.

Lemma mergeLabels_idem (user image : option (gmap string string)) :
  mergeLabels (mergeLabels user image) image = mergeLabels user image.
Proof.
  unfold mergeLabels. by rewrite !fold_keep_union, union_absorb_r.
Qed.

Lemma mergeVolumes_idem (user image : option (gmap string unit)) :
  mergeVolumes (mergeVolumes user image) image = mergeVolumes user image.
Proof.
  unfold mergeVolumes at 2 3.
  destruct (Nat.eqb_spec (maplen user) 0) as [Hu|Hu].
  - unfold mergeVolumes. destruct (Nat.eqb (maplen image) 0); [done|].
    destruct image as [im|]; [|done].
    by rewrite fold_insert_union, (idemp_L (∪)).
  - destruct user as [us|]; [|done]. cbn [maplen] in Hu.
    rewrite fold_insert_union. unfold mergeVolumes. cbn [maplen].
    set (im := match image with Some im => im | None => ∅ end).
    destruct (Nat.eqb_spec (size (im ∪ us)) 0) as [Hz|_].
    + by apply size_union_r_nonzero in Hz.
    + by rewrite fold_insert_union, union_absorb_l.
Qed.

Lemma mergeHealth_idem (user image : option HealthConfig) :
  mergeHealth (mergeHealth user image) image = mergeHealth user image.
Proof.
  destruct image as [[t i o r]|], user as [[t' i' o' r']|]; cbn; try done.
  - f_equal. f_equal.
    + by destruct (Nat.eqb (len t') 0) eqn:E; [destruct (Nat.eqb (len t) 0)|rewrite E].
    + by destruct (Z.eqb i' 0) eqn:E; [destruct (Z.eqb i 0)|rewrite E].
    + by destruct (Z.eqb o' 0) eqn:E; [destruct (Z.eqb o 0)|rewrite E].
    + by destruct (Z.eqb r' 0) eqn:E; [destruct (Z.eqb r 0)|rewrite E].
  - f_equal. f_equal.
    + by destruct (Nat.eqb (len t) 0).
    + by destruct (Z.eqb i 0).
    + by destruct (Z.eqb o 0).
    + by destruct (Z.eqb r 0).
Qed.

Lemma inheritString_idem (user image : string) :
  (if String.eqb (if String.eqb user "" then image else user) ""
   then image else if String.eqb user "" then image else user)
  = (if String.eqb user "" then image else user).
Proof.
  destruct (String.eqb user "") eqn:E.
  - by destruct (String.eqb image "").
  - by rewrite E.
Qed.

(** ** Entry point and command *)

(** C4, as stated, fails: with a [nil] entry point and a command of his own
    the user inherits the entry point of the image and keeps his command, so
    one is inherited without the other. *)
Lemma merge_entrypoint_without_cmd :
  let u := withCommand emptyConfig None (Some ["run"]) true in
  let i := withCommand emptyConfig (Some ["sh"]) (Some ["-c"; "echo hi"]) false in
  let r := merge "linux" upperASCII u i in
  Entrypoint r = Entrypoint i ∧ Entrypoint r ≠ Entrypoint u ∧
  Cmd r = Cmd u ∧ Cmd r ≠ Cmd i.
Proof. cbn. by repeat split. Qed.

(** C4 (amended).  When the user's entry point is [nil] and the user's command
    is empty, [merge] takes the entry point, the command and the
    arguments-already-escaped flag from the image together.  Otherwise the two
    are decided separately: the command and the flag come from the image
    exactly when the user's entry point and command are both empty, and the
    entry point comes from the image exactly when the user's is [nil]. *)
Theorem merge_entrypoint_cmd (os : string) (up : string → string) (u i : Config) :
  let r := merge os up u i in
  (Entrypoint u = None → len (Cmd u) = 0 →
     Entrypoint r = Entrypoint i ∧ Cmd r = Cmd i ∧ ArgsEscaped r = ArgsEscaped i) ∧
  (len (Entrypoint u) = 0 → len (Cmd u) = 0 →
     Cmd r = Cmd i ∧ ArgsEscaped r = ArgsEscaped i) ∧
  (len (Entrypoint u) ≠ 0 ∨ len (Cmd u) ≠ 0 →
     Cmd r = Cmd u ∧ ArgsEscaped r = ArgsEscaped u) ∧
  (Entrypoint u = None → Entrypoint r = Entrypoint i) ∧
  (Entrypoint u ≠ None → Entrypoint r = Entrypoint u).
Proof.
  cbn [merge Entrypoint Cmd ArgsEscaped]. unfold mergeCmd, mergeEntrypoint.
  destruct (Entrypoint u) as [[|e ep]|], (Cmd u) as [[|c cmd]|]; cbn;
    repeat split; try done; try (by intros [?|?]);
    match goal with H : _ ∨ _ |- _ => by destruct H end.
Qed.

Lemma merge_entrypoint_cmd_witness :
  let u := withCommand emptyConfig None (Some []) false in
  let i := withCommand emptyConfig (Some ["sh"]) (Some ["-c"; "echo hi"]) true in
  let r := merge "linux" upperASCII u i in
  Entrypoint r = Some ["sh"] ∧ Cmd r = Some ["-c"; "echo hi"] ∧ ArgsEscaped r = true.
Proof.
  intros u i r.
  destruct (merge_entrypoint_cmd "linux" upperASCII u i) as [H _].
  apply H; reflexivity.
Defined.

(** ** The environment list *)

(** C6, as stated, fails: a base list with two entries of one name, neither
    matching a user entry, is not appended whole. *)
Lemma merge_env_drops_repeated_name :
  let name := entryName "linux" upperASCII in
  let u := withEnv emptyConfig (Some ["A=1"]) in
  let i := withEnv emptyConfig (Some ["B=3"; "B=4"]) in
  Env (merge "linux" upperASCII u i) = Some ["A=1"; "B=3"] ∧
  envAsSpecified name (elems (Env u)) (elems (Env i)) = ["A=1"; "B=3"; "B=4"] ∧
  Env (merge "linux" upperASCII u i)
  ≠ Some (envAsSpecified name (elems (Env u)) (elems (Env i))).
Proof. vm_compute. by repeat split. Qed.

(** C6 (amended).  An empty user list is replaced by the base list as it is.
    A non-empty user list is kept unchanged and in order, followed, in base
    order, by exactly those base entries whose name left of ['='] matches
    neither a user entry's name nor the name of a base entry appended before
    it; names are compared in upper case when the system is Windows and as
    they are otherwise.  When no two base entries have the same name these are
    the base entries matching no user entry. *)
Theorem merge_env_inherits (os : string) (up : string → string) (u i : Config) :
  (os = "windows" → ∀ s, up (up s) = up s) →
  let name := entryName os up in
  (len (Env u) = 0 → Env (merge os up u i) = Env i) ∧
  (len (Env u) ≠ 0 →
     Env (merge os up u i)
     = Some (elems (Env u)
             ++ inherited name (map name (elems (Env u))) (elems (Env i)))) ∧
  (len (Env u) ≠ 0 → NoDup (map name (elems (Env i))) →
     Env (merge os up u i)
     = Some (envAsSpecified name (elems (Env u)) (elems (Env i)))).
Proof.
  intros Hup name. cbn [merge Env]. unfold mergeEnv.
  assert (∀ us im, mergeEnvLoop os up us im
                   = us ++ inherited name (map name us) im) as Hloop.
  { intros us im. by apply mergeEnvLoop_inherited. }
  split; [|split].
  - intros Hz. by rewrite Hz.
  - intros Hnz. apply Nat.eqb_neq in Hnz. rewrite Hnz. by rewrite Hloop.
  - intros Hnz Hnd. apply Nat.eqb_neq in Hnz. rewrite Hnz, Hloop.
    unfold envAsSpecified. do 2 f_equal.
    by apply (inherited_filter os up).
Qed.

Lemma merge_env_inherits_witness :
  (∀ s, upperASCII (upperASCII s) = upperASCII s) ∧
  Env (merge "linux" upperASCII (withEnv emptyConfig (Some ["A=1"]))
                                (withEnv emptyConfig (Some ["A=2"; "B=3"])))
  = Some ["A=1"; "B=3"] ∧
  Env (merge "windows" upperASCII (withEnv emptyConfig (Some ["Path=1"]))
                                  (withEnv emptyConfig (Some ["PATH=2"; "b=3"; "B=4"])))
  = Some ["Path=1"; "b=3"].
Proof.
  split; [exact upperASCII_idem|]. split.
  - destruct (merge_env_inherits "linux" upperASCII
                (withEnv emptyConfig (Some ["A=1"]))
                (withEnv emptyConfig (Some ["A=2"; "B=3"]))
                (λ _, upperASCII_idem)) as (_ & H & _).
    rewrite H; [reflexivity | cbn; lia].
  - destruct (merge_env_inherits "windows" upperASCII
                (withEnv emptyConfig (Some ["Path=1"]))
                (withEnv emptyConfig (Some ["PATH=2"; "b=3"; "B=4"]))
                (λ _, upperASCII_idem)) as (_ & H & _).
    rewrite H; [reflexivity | cbn; lia].
Defined.

(** ** Merging twice *)

Lemma mergeCommand_idem (os : string) (up : string → string) (u i : Config) :
  mergeCmd (merge os up u i) i = mergeCmd u i ∧
  mergeEntrypoint (merge os up u i) i = mergeEntrypoint u i.
Proof.
  unfold mergeCmd, mergeEntrypoint. cbn [merge Entrypoint Cmd ArgsEscaped].
  unfold mergeCmd, mergeEntrypoint.
  destruct (Entrypoint u) as [[|e ep]|], (Cmd u) as [[|c cmd]|];
    cbn; try done;
    destruct (Entrypoint i) as [[|e' ep']|], (Cmd i) as [[|c' cmd']|]; by cbn.
Qed.

(** C10.  Merging the result of [merge u i] with the same image
    configuration [i] once more changes no field.  ([strings.ToUpper], which
    is used on Windows only, is taken to give an upper-case string back
    unchanged.) *)
Theorem merge_idempotent (os : string) (up : string → string) (u i : Config) :
  (os = "windows" → ∀ s, up (up s) = up s) →
  merge os up (merge os up u i) i = merge os up u i.
Proof.
  intros Hup.
  destruct (mergeCommand_idem os up u i) as [Hcmd Hep].
  unfold merge at 1. rewrite Hcmd, Hep.
  cbn [merge Hostname Domainname User ExposedPorts Env Healthcheck ImageName
       Volumes WorkingDir Labels StopSignal].
  rewrite mergePorts_idem, (mergeEnv_idem os up Hup), mergeHealth_idem,
    mergeVolumes_idem, mergeLabels_idem, !inheritString_idem.
  reflexivity.
Qed.

Lemma merge_idempotent_witness :
  let u := withEnv (withCommand emptyConfig None (Some ["run"]) true)
                   (Some ["Path=/bin"]) in
  let i := withEnv (withCommand emptyConfig (Some ["sh"]) (Some ["-c"]) false)
                   (Some ["PATH=/usr/bin"; "HOME=/root"]) in
  (∀ s, upperASCII (upperASCII s) = upperASCII s) ∧
  merge "windows" upperASCII (merge "windows" upperASCII u i) i
  = merge "windows" upperASCII u i.
Proof.
  intros u i. split; [exact upperASCII_idem|].
  apply merge_idempotent. intros _. exact upperASCII_idem.
Defined.

(** ** Materialising a diff *)

Lemma wrap64_add_l a b : wrap64 (wrap64 a + b) = wrap64 (a + b).
Proof.
  unfold wrap64. f_equal.
  replace ((a + 2 ^ 63) mod 2 ^ 64 - 2 ^ 63 + b + 2 ^ 63)%Z
    with ((a + 2 ^ 63) mod 2 ^ 64 + b)%Z by lia.
  rewrite Z.add_mod_idemp_l by lia. f_equal. lia.
Qed.

Lemma wrap64_idem a : wrap64 (wrap64 a) = wrap64 a.
Proof.
  replace (wrap64 a) with (wrap64 a + 0)%Z at 1 by lia.
  rewrite wrap64_add_l. f_equal. lia.
Qed.

(** The size found by the scan is the sum of the entry sizes, wrapped. *)
Lemma sumSizes_total items acc s :
  sumSizes items acc = inr s →
  wrap64 s = wrap64 (acc + totalSize items) ∧ (wrap64 acc = acc → wrap64 s = s).
Proof.
  revert acc. induction items as [|[size|e] rest IH]; intros acc Hs; cbn in Hs.
  - injection Hs as <-. split; [|done]. f_equal. cbn. lia.
  - apply IH in Hs as [Hsum Hrange]. split.
    + rewrite Hsum, wrap64_add_l. f_equal. cbn. lia.
    + intros _. apply Hrange, wrap64_idem.
  - done.
Qed.

Lemma sumSizes_zero items s :
  sumSizes items 0 = inr s → items = [] ∨ totalSize items = 0%Z → s = 0%Z.
Proof.
  intros Hs Hz. apply sumSizes_total in Hs as [Hsum Hrange].
  rewrite <- Hrange by done. rewrite Hsum.
  destruct Hz as [-> | ->]; reflexivity.
Qed.

Lemma readFile_writeFile name content fs0 :
  readFile name (writeFile name content fs0) = content.
Proof. unfold readFile, writeFile. cbn. by rewrite lookup_insert_eq. Qed.

(** What a successful compression pass returns and leaves behind. *)
Lemma compressDiffToTmpFile_ok codec host rc containerID fs0 out d g fs1 :
  compressDiffToTmpFile codec host rc containerID fs0 = (inr (out, d, g), fs1) →
  files fs0 !! out = None ∧
  d = sha256Sum codec (streamData rc) ∧
  g = sha256Sum codec (gzipBytes codec (streamData rc)) ∧
  fs1 = writeFile out (gzipBytes codec (streamData rc)) (writeFile out [] fs0).
Proof.
  unfold compressDiffToTmpFile, TempFile, ioCopy. intros H.
  repeat case_match; simplify_eq. done.
Qed.

(** A failed compression pass leaves the files as they were. *)
Lemma compressDiffToTmpFile_fail codec host rc containerID fs0 e fs1 :
  compressDiffToTmpFile codec host rc containerID fs0 = (inl e, fs1) →
  files fs1 = files fs0.
Proof.
  unfold compressDiffToTmpFile, TempFile, ioCopy. intros H.
  repeat case_match; simplify_eq; try done;
    cbn; rewrite !delete_insert_eq; by apply delete_id.
Qed.

(** The steps after the compression pass create no file and remove none
    unless they all succeed. *)
Lemma downloadDiffBody_fail codec host tmp d g fs0 e fs1 :
  downloadDiffBody codec host tmp d g fs0 = (inl e, fs1) →
  files fs1 = files fs0.
Proof.
  unfold downloadDiffBody. intros H. repeat case_match; by simplify_eq.
Qed.

Lemma downloadDiffBody_ok codec host tmp d g fs0 lm fs1 :
  downloadDiffBody codec host tmp d g fs0 = (inr lm, fs1) →
  ∃ layerSize,
    sumSizes (tarNext codec (readFile tmp fs0)) 0 = inr layerSize ∧
    lmSize lm = layerSize ∧
    lmDiffID lm = (if Z.eqb layerSize 0 then DigestSHA256EmptyTar
                   else NewDigestFromBytes SHA256 d) ∧
    lmBlobSum lm = NewDigestFromBytes SHA256 g.
Proof.
  unfold downloadDiffBody. intros H. repeat case_match; simplify_eq.
  all: eexists; split; [reflexivity|]; cbn;
    match goal with H : Z.eqb _ 0 = _ |- _ => by rewrite H end.
Qed.

Lemma downloadDiff_ok codec host rc containerID fs0 lm fs1 :
  downloadDiff codec host rc containerID fs0 = (inr lm, fs1) →
  ∃ layerSize,
    sumSizes (archiveOf codec rc) 0 = inr layerSize ∧
    lmDiffID lm = (if Z.eqb layerSize 0 then DigestSHA256EmptyTar
                   else NewDigestFromBytes SHA256 (sha256Sum codec (streamData rc))) ∧
    lmBlobSum lm
    = NewDigestFromBytes SHA256 (sha256Sum codec (gzipBytes codec (streamData rc))).
Proof.
  unfold downloadDiff. intros H.
  destruct (compressDiffToTmpFile codec host rc containerID fs0)
    as [[e|[[tmp d] g]] fsT] eqn:Hc; [done|].
  apply compressDiffToTmpFile_ok in Hc as (_ & -> & -> & ->).
  destruct (downloadDiffBody codec host tmp _ _ _) as [[e|lm'] fsB] eqn:Hb; [done|].
  injection H as -> ->.
  apply downloadDiffBody_ok in Hb as (layerSize & Hs & _ & Hd & Hbs).
  rewrite readFile_writeFile in Hs. by exists layerSize.
Qed.

Lemma downloadDiff_fail codec host rc containerID fs0 e fs1 :
  downloadDiff codec host rc containerID fs0 = (inl e, fs1) →
  files fs1 = files fs0.
Proof.
  unfold downloadDiff. intros H.
  destruct (compressDiffToTmpFile codec host rc containerID fs0)
    as [[e'|[[tmp d] g]] fsT] eqn:Hc.
  - injection H as -> ->. by apply compressDiffToTmpFile_fail in Hc.
  - apply compressDiffToTmpFile_ok in Hc as (Hfresh & -> & -> & ->).
    destruct (downloadDiffBody codec host tmp _ _ _) as [[e'|lm'] fsB] eqn:Hb; [|done].
    injection H as -> <-. apply downloadDiffBody_fail in Hb.
    cbn. rewrite Hb. cbn. rewrite !delete_insert_eq. by apply delete_id.
Qed.

(** C5.  When the archive read back from the temporary file has no entry, or
    entries whose sizes sum to zero, the layer that [downloadDiff] returns
    carries the empty-archive digest as its diffID, whatever the digest of
    the stream bytes is. *)
Theorem downloadDiff_empty_archive (codec : Codec) (host : Host) (rc : Stream)
    (containerID : string) (fs0 : FS) (lm : ImageWithMeta) (fs1 : FS) :
  downloadDiff codec host rc containerID fs0 = (inr lm, fs1) →
  archiveOf codec rc = [] ∨ totalSize (archiveOf codec rc) = 0%Z →
  lmDiffID lm = DigestSHA256EmptyTar.
Proof.
  intros Hd Hz. apply downloadDiff_ok in Hd as (layerSize & Hs & -> & _).
  by rewrite (sumSizes_zero _ _ Hs Hz).
Qed.

Lemma downloadDiff_empty_archive_witness :
  archiveOf sampleCodec emptyArchive = [] ∧
  totalSize (archiveOf sampleCodec zeroSizeArchive) = 0%Z ∧
  match downloadDiff sampleCodec sampleHost emptyArchive "c1" emptyFS,
        downloadDiff sampleCodec sampleHost zeroSizeArchive "c1" emptyFS with
  | (inr lm1, _), (inr lm2, _) =>
      lmDiffID lm1 = DigestSHA256EmptyTar ∧ lmDiffID lm2 = DigestSHA256EmptyTar
  | _, _ => False
  end.
Proof.
  split; [reflexivity|]. split; [reflexivity|].
  destruct (downloadDiff sampleCodec sampleHost emptyArchive "c1" emptyFS)
    as [[e1|lm1] fs1] eqn:Hd1; [vm_compute in Hd1; discriminate Hd1|].
  destruct (downloadDiff sampleCodec sampleHost zeroSizeArchive "c1" emptyFS)
    as [[e2|lm2] fs2] eqn:Hd2; [vm_compute in Hd2; discriminate Hd2|].
  split.
  - apply (downloadDiff_empty_archive _ _ _ _ _ _ _ Hd1). left. reflexivity.
  - apply (downloadDiff_empty_archive _ _ _ _ _ _ _ Hd2). right. reflexivity.
Defined.

(** C8.  When [downloadDiff] returns an error after the temporary file has
    been created, that file is gone when the error is returned, nothing sits
    at the final blob path that was not there before, and the files are those
    present before the call. *)
Theorem downloadDiff_failure_cleans_up (codec : Codec) (host : Host) (rc : Stream)
    (containerID : string) (fs0 : FS) (out : string) (fsT : FS)
    (e : Error) (fs1 : FS) :
  TempFile host containerID fs0 = (inr out, fsT) →
  downloadDiff codec host rc containerID fs0 = (inl e, fs1) →
  files fsT !! out = Some [] ∧
  files fs1 !! out = None ∧
  files fs1 !! blobPath host = files fs0 !! blobPath host ∧
  files fs1 = files fs0.
Proof.
  intros Ht Hd. apply downloadDiff_fail in Hd.
  unfold TempFile in Ht. repeat case_match; simplify_eq.
  rewrite Hd. cbn. by rewrite lookup_insert_eq.
Qed.

Lemma downloadDiff_failure_cleans_up_witness :
  TempFile renameFailsHost "c1" busyFS
  = (inr "/tmp/c1001", writeFile "/tmp/c1001" [] busyFS) ∧
  match downloadDiff sampleCodec renameFailsHost smallArchive "c1" busyFS with
  | (inl _, fs1) =>
      files fs1 !! "/tmp/c1001" = None ∧
      files fs1 !! blobPath renameFailsHost = None ∧
      files fs1 = files busyFS
  | (inr _, _) => False
  end.
Proof.
  split; [reflexivity|].
  destruct (downloadDiff sampleCodec renameFailsHost smallArchive "c1" busyFS)
    as [[e|lm] fs1] eqn:Hd.
  - destruct (downloadDiff_failure_cleans_up sampleCodec renameFailsHost
                smallArchive "c1" busyFS "/tmp/c1001"
                (writeFile "/tmp/c1001" [] busyFS) e fs1 eq_refl Hd)
      as (_ & Hgone & Hblob & Hsame).
    split; [exact Hgone|]. split; [|exact Hsame].
    rewrite Hblob. reflexivity.
  - vm_compute in Hd. discriminate Hd.
Defined.



(** ** [Commit] *)

(** C7.  A container that the cache knows and that is inspected as running
    or restarting makes [Commit] return a Conflict failure, in a world that
    is the one it was called in: no file written, no export requested, no
    cache changed, no event logged. *)
Theorem Commit_running_conflict (rt : Runtime) (eng : Engine) (codec : Codec)
    (host : Host) (fuel : nat) (name : string) (config : ContainerCommitConfig)
    (w : World) (vc : VicContainer) (container : ContainerJSON) :
  GetContainer eng name = Some vc →
  ContainerInspect eng name = inr (Some container) →
  cjRunning container = true ∨ cjRestarting container = true →
  Commit rt eng codec host fuel name config w
  = (Fail (ConflictError
             (ProductName eng ++ " does not support commit of a running container")),
     w).
Proof.
  intros Hvc Hinspect Hstate. unfold Commit. rewrite Hvc, Hinspect.
  assert (cjRunning container || cjRestarting container = true) as ->.
  { destruct Hstate as [-> | ->]; [done | by rewrite orb_true_r]. }
  done.
Qed.

Lemma Commit_running_conflict_witness :
  cjRunning runningContainer = true ∧
  Commit sampleRuntime (sampleEngine runningContainer "scratch" smallArchive)
         sampleCodec sampleHost 4 "web" untaggedCommit emptyWorld
  = (Fail (ConflictError
             "vSphere Integrated Containers does not support commit of a running container"),
     emptyWorld).
Proof.
  split; [reflexivity|].
  rewrite (Commit_running_conflict _ _ _ _ _ _ _ _
             {| vcContainerID := "c1f0"; vcLayerID := "layer0"; vcImageID := "scratch" |}
             runningContainer); [reflexivity | reflexivity | reflexivity | by left].
Defined.

(** The chain walk does not leave a parent that is in the cache: [pl] is
    the same at every test of the loop condition. *)
Lemma chainWalk_pending fuel w pl lm layers lm' :
  String.eqb pl ScratchLayerID = false →
  layerCache w !! pl = Some lm' →
  chainWalk fuel w pl lm layers
  = WalkPending (match fuel with O => lm | S _ => lm' end)
                (layers ++ repeat lm' fuel).
Proof.
  intros Hpl Hget. revert lm layers.
  induction fuel as [|n IH]; intros lm layers; cbn [chainWalk]; rewrite Hpl.
  - cbn. by rewrite app_nil_r.
  - unfold layerCacheGet. rewrite Hget, IH. cbn [repeat].
    rewrite <- app_assoc. by destruct n.
Qed.

(** The layer that [downloadDiff] returns has no [lm.Image]. *)
Lemma downloadDiff_image_nil codec host rc containerID fs0 lm fs1 :
  downloadDiff codec host rc containerID fs0 = (inr lm, fs1) →
  lmImage lm = None.
Proof.
  unfold downloadDiff, downloadDiffBody. intros H.
  repeat case_match; by simplify_eq.
Qed.

(** What follows [downloadDiff] in [Commit] panics on line 187, whether
    [downloadDiff] failed or not, with the file system as [downloadDiff]
    left it. *)
Lemma commitLayer_panics rt eng codec host fuel ic rc container config newConfig w :
  commitLayer rt eng codec host fuel ic rc container config newConfig w
  = (Panic, setFs w (snd (downloadDiff codec host rc (cjID container) (fs w)))).
Proof.
  unfold commitLayer.
  destruct (downloadDiff codec host rc (cjID container) (fs w))
    as [[e|lm] fs1] eqn:Hd; [done|].
  apply downloadDiff_image_nil in Hd. unfold setLayerConfig, lmID.
  by rewrite Hd.
Qed.

(** C1 (the code at the chain of the specification).  With [L2] and [L1] in
    the layer cache, a walk that moves on to the parent of each layer found
    gives [[L3; L2; L1]].  The loop of lines 118-124 entered for [L3], whose
    parent is [L2], is still in its body after any number of iterations, each
    of which looked up [L2] again and appended it.  [Commit] of a container
    created from the image [L2] does not get as far as the loop: it panics at
    the read of [lm.ID] on line 187. *)
Theorem chainWalk_never_advances :
  chainAsSpecified 3 chainWorld "L2" [layerL3]
  = Some [layerL3; layerL2; layerL1] ∧
  lmParent layerL3 = Some "L2" ∧
  (∀ n, chainWalk n chainWorld "L2" layerL3 [layerL3]
        = WalkPending (match n with O => layerL3 | S _ => layerL2 end)
                      (layerL3 :: repeat layerL2 n)) ∧
  (∀ n, fst (Commit sampleRuntime (sampleEngine stoppedContainer "L2" smallArchive)
                    sampleCodec sampleHost n "web" untaggedCommit chainWorld)
        = Panic).
Proof.
  split; [reflexivity|]. split; [reflexivity|]. split.
  - intros n. by apply chainWalk_pending.
  - intros n. unfold Commit. cbn [sampleEngine GetContainer ContainerInspect
      BuildFromConfig ArchiveExportReader String.eqb Ascii.eqb Bool.eqb orb
      stoppedContainer cjRunning cjRestarting cjID untaggedCommit CommitConf
      Changes MergeConfigs Repo Tag getImagec negb WithName].
    by rewrite commitLayer_panics.
Qed.

(** When [downloadDiff] fails, the rest of [Commit] is entered with a [nil]
    layer and ends in a panic. *)
Lemma commitLayer_diff_error_panics rt eng codec host fuel ic rc container config
    newConfig w :
  match downloadDiff codec host rc (cjID container) (fs w) with
  | (inl _, fs1) =>
      commitLayer rt eng codec host fuel ic rc container config newConfig w
      = (Panic, setFs w fs1)
  | (inr _, _) => True
  end.
Proof.
  unfold commitLayer.
  by destruct (downloadDiff codec host rc (cjID container) (fs w)) as [[e|lm] fs1].
Qed.

(** C2 (the code at a failing materialisation).  The export stream of the
    container breaks off: [downloadDiff] returns the read error, and [Commit]
    does not return it, nor any error: it panics.  So does the part of
    [Commit] that starts at [downloadDiff] whenever [downloadDiff] fails. *)
Theorem Commit_drops_downloadDiff_error :
  let eng := sampleEngine stoppedContainer "scratch" brokenStream in
  fst (downloadDiff sampleCodec sampleHost brokenStream (cjID stoppedContainer)
                    (fs emptyWorld))
  = inl (PlainError "unexpected EOF") ∧
  (∀ fuel,
     fst (Commit sampleRuntime eng sampleCodec sampleHost fuel "web" untaggedCommit
                 emptyWorld) = Panic) ∧
  (∀ rt eng codec host fuel ic rc container config newConfig w,
     match downloadDiff codec host rc (cjID container) (fs w) with
     | (inl _, fs1) =>
         commitLayer rt eng codec host fuel ic rc container config newConfig w
         = (Panic, setFs w fs1)
     | (inr _, _) => True
     end).
Proof.
  intros eng. split; [reflexivity|].
  split; [|apply commitLayer_diff_error_panics].
  intros fuel. unfold Commit, eng.
  cbn [sampleEngine GetContainer ContainerInspect
      BuildFromConfig ArchiveExportReader String.eqb Ascii.eqb Bool.eqb orb
      stoppedContainer cjRunning cjRestarting cjID untaggedCommit CommitConf
      Changes MergeConfigs Repo Tag getImagec negb WithName].
  match goal with
  | |- fst (commitLayer ?rt ?e ?c ?h ?f ?ic ?rc ?ct ?cfg ?nc ?w) = _ =>
      pose proof (commitLayer_diff_error_panics rt e c h f ic rc ct cfg nc w) as H;
      destruct (downloadDiff c h rc (cjID ct) (fs w)) as [[err|lm] fs1] eqn:Hd
  end.
  - by rewrite H.
  - vm_compute in Hd. discriminate Hd.
Qed.



(** With a [nil] reference, lines 126-159 leave the repository cache as it
    is and give the event an empty reference name. *)
Lemma commitImage_untagged eng ic lm layers w id w' :
  Reference ic = None →
  commitImage eng ic lm layers w = (Ok id, w') →
  repoCache w' = repoCache w ∧
  events w' = events w ++ [{| evAction := "commit"; evType := "image";
                              evImageID := id; evRefName := "" |}].
Proof.
  intros Href. unfold commitImage. rewrite Href. intros H.
  repeat case_match; by simplify_eq.
Qed.

(** * Further properties *)

(** ** [merge]: labels, ports and volumes *)

(** X1.  The merged labels are never [nil]; every label of the user keeps
    the user's value, and a key the user does not have takes the value of
    the image, if any. *)
Theorem merge_labels_user_wins (os : string) (up : string → string) (u i : Config) :
  let lu := match Labels u with Some m => m | None => ∅ end in
  let li := match Labels i with Some m => m | None => ∅ end in
  ∃ m, Labels (merge os up u i) = Some m ∧
       (∀ k v, lu !! k = Some v → m !! k = Some v) ∧
       (∀ k, lu !! k = None → m !! k = li !! k).
Proof.
  intros lu li. exists (lu ∪ li). cbn [merge Labels]. unfold mergeLabels.
  rewrite fold_keep_union. split; [done|]. split.
  - intros k v Hk. by apply lookup_union_Some_l.
  - intros k Hk. by apply lookup_union_r.
Qed.

(** X2.  Exposed ports and volumes: a user who has none gets the map of the
    image as it is, [nil] included; otherwise the merged map has exactly the
    keys of the user and of the image. *)
Theorem merge_ports_volumes_union (os : string) (up : string → string) (u i : Config) :
  let keys (m : option (gmap string unit)) : gset string :=
    match m with Some g => dom g | None => ∅ end in
  let r := merge os up u i in
  (maplen (ExposedPorts u) = 0 → ExposedPorts r = ExposedPorts i) ∧
  (maplen (ExposedPorts u) ≠ 0 →
     ExposedPorts r ≠ None ∧
     keys (ExposedPorts r) = keys (ExposedPorts u) ∪ keys (ExposedPorts i)) ∧
  (maplen (Volumes u) = 0 → Volumes r = Volumes i) ∧
  (maplen (Volumes u) ≠ 0 →
     Volumes r ≠ None ∧ keys (Volumes r) = keys (Volumes u) ∪ keys (Volumes i)).
Proof.
  intros keys r. unfold r. cbn [merge ExposedPorts Volumes].
  unfold mergePorts, mergeVolumes. repeat split.
  - by intros ->.
  - apply Nat.eqb_neq in H. rewrite H.
    by destruct (ExposedPorts i), (ExposedPorts u).
  - apply Nat.eqb_neq in H. rewrite H.
    destruct (ExposedPorts u) as [us|]; [|done].
    destruct (ExposedPorts i) as [im|]; cbn.
    + by rewrite fold_port_union, dom_union_L.
    + by rewrite (right_id_L ∅ (∪)).
  - by intros ->.
  - apply Nat.eqb_neq in H. rewrite H. by destruct (Volumes u).
  - apply Nat.eqb_neq in H. rewrite H.
    destruct (Volumes u) as [us|]; [|done]. cbn.
    rewrite fold_insert_union, dom_union_L.
    destruct (Volumes i) as [im|]; cbn; [apply (comm_L (∪))|].
    by rewrite dom_empty_L, (left_id_L ∅ (∪)), (right_id_L ∅ (∪)).
Qed.

(** ** [merge]: the names of the environment *)

Lemma existsb_eqb_elem (x : string) (l : list string) :
  existsb (String.eqb x) l = true ↔ x ∈ l.
Proof.
  induction l as [|y l IH]; cbn.
  - split; [done|]. by intros H%elem_of_nil.
  - rewrite orb_true_iff, IH, elem_of_cons.
    destruct (String.eqb_spec x y) as [Heq|Hne]; split; intros [H|H]; auto.
    discriminate H.
Qed.

Lemma inherited_NoDup (name : string → string) (seen imageEnv : list string) :
  NoDup seen → NoDup (seen ++ map name (inherited name seen imageEnv)).
Proof.
  revert seen. induction imageEnv as [|e rest IH]; intros seen Hnd; cbn.
  - by rewrite app_nil_r.
  - destruct (existsb (String.eqb (name e)) seen) eqn:He; [by apply IH|].
    cbn [map]. specialize (IH (seen ++ [name e])).
    rewrite <- app_assoc in IH. apply IH.
    apply NoDup_app. split; [done|]. split; [|apply NoDup_singleton].
    intros x Hx Hx'. apply list_elem_of_singleton in Hx' as ->.
    apply existsb_eqb_elem in Hx. congruence.
Qed.

(** X3.  After a merge every variable name of the image is the name of some
    entry of the merged environment, so no variable of the image is left
    undefined. *)
Theorem merge_env_covers_image (os : string) (up : string → string)
    (u i : Config) (e : string) :
  (os = "windows" → ∀ s, up (up s) = up s) →
  e ∈ elems (Env i) →
  ∃ x, x ∈ elems (Env (merge os up u i)) ∧ entryName os up x = entryName os up e.
Proof.
  intros Hup He. cbn [merge Env]. unfold mergeEnv.
  destruct (Nat.eqb (len (Env u)) 0); [by exists e|]. cbn [elems].
  pose proof (mergeEnvLoop_covers os up Hup (elems (Env u)) _ _ He) as Hf.
  rewrite (envFound_names os up Hup) in Hf.
  apply existsb_eqb_elem, list_elem_of_fmap in Hf as (x & Hx & Hin).
  by exists x.
Qed.

Lemma merge_env_covers_image_witness :
  ∃ x, x ∈ elems (Env (merge "windows" upperASCII
                         (withEnv emptyConfig (Some ["Path=1"]))
                         (withEnv emptyConfig (Some ["PATH=2"; "b=3"])))) ∧
       entryName "windows" upperASCII x = entryName "windows" upperASCII "PATH=2".
Proof.
  apply merge_env_covers_image.
  - intros _. exact upperASCII_idem.
  - cbn. apply elem_of_cons. by left.
Defined.

(** X4.  A merge into a non-empty user environment adds no second entry
    for a name: when the names of the user entries are pairwise different, so
    are the names of the merged entries. *)
Theorem merge_env_no_new_duplicates (os : string) (up : string → string)
    (u i : Config) :
  (os = "windows" → ∀ s, up (up s) = up s) →
  len (Env u) ≠ 0 →
  NoDup (map (entryName os up) (elems (Env u))) →
  NoDup (map (entryName os up) (elems (Env (merge os up u i)))).
Proof.
  intros Hup Hnz Hnd. cbn [merge Env]. unfold mergeEnv.
  apply Nat.eqb_neq in Hnz. rewrite Hnz. cbn [elems].
  rewrite (mergeEnvLoop_inherited os up Hup), map_app.
  by apply inherited_NoDup.
Qed.

Lemma merge_env_no_new_duplicates_witness :
  NoDup (map (entryName "linux" upperASCII)
             (elems (Env (merge "linux" upperASCII
                            (withEnv emptyConfig (Some ["A=1"; "C=2"]))
                            (withEnv emptyConfig (Some ["B=3"; "A=0"; "B=4"])))))).
Proof.
  apply merge_env_no_new_duplicates.
  - intros _. exact upperASCII_idem.
  - cbn. lia.
  - cbn. apply NoDup_cons. split; [|apply NoDup_singleton].
    intros H%list_elem_of_singleton. discriminate H.
Defined.

(** ** [downloadDiff]: what a materialisation leaves on disk *)








Lemma wrap64_small z : (- 2 ^ 63 ≤ z < 2 ^ 63)%Z → wrap64 z = z.
Proof. intros Hz. unfold wrap64. rewrite Z.mod_small; lia. Qed.

Lemma wrap64_range z : (- 2 ^ 63 ≤ wrap64 z < 2 ^ 63)%Z.
Proof.
  unfold wrap64.
  pose proof (Z.mod_pos_bound (z + 2 ^ 63) (2 ^ 64)) as H. lia.
Qed.

(** X7.  The size of a materialised layer is an [int64]; it is the sum of
    the sizes of the archive entries whenever that sum is one. *)
Theorem downloadDiff_size_is_total (codec : Codec) (host : Host)
    (rc : Stream) (containerID : string) (fs0 : FS) (lm : ImageWithMeta) (fs1 : FS) :
  downloadDiff codec host rc containerID fs0 = (inr lm, fs1) →
  (- 2 ^ 63 ≤ lmSize lm < 2 ^ 63)%Z ∧
  ((- 2 ^ 63 ≤ totalSize (archiveOf codec rc) < 2 ^ 63)%Z →
     lmSize lm = totalSize (archiveOf codec rc)).
Proof.
  intros H. unfold downloadDiff in H.
  destruct (compressDiffToTmpFile codec host rc containerID fs0)
    as [[e|[[tmp d] g]] fsT] eqn:Hc; [done|].
  apply compressDiffToTmpFile_ok in Hc as (_ & -> & -> & ->).
  destruct (downloadDiffBody codec host tmp _ _ _) as [[e|lm'] fsB] eqn:Hb; [done|].
  injection H as -> ->.
  apply downloadDiffBody_ok in Hb as (layerSize & Hs & -> & _).
  rewrite readFile_writeFile in Hs.
  apply sumSizes_total in Hs as [Hsum Hrange].
  specialize (Hrange eq_refl). split.
  - rewrite <- Hrange. apply wrap64_range.
  - intros Hfit. rewrite <- Hrange, Hsum. cbn. by apply wrap64_small.
Qed.

Lemma downloadDiff_size_is_total_witness :
  match downloadDiff sampleCodec sampleHost smallArchive "c1" busyFS with
  | (inr lm, _) => lmSize lm = 100%Z
  | (inl _, _) => False
  end.
Proof.
  destruct (downloadDiff sampleCodec sampleHost smallArchive "c1" busyFS)
    as [[e|lm] fs1] eqn:Hd; [vm_compute in Hd; discriminate Hd|].
  destruct (downloadDiff_size_is_total _ _ _ _ _ _ _ Hd) as [_ Htotal].
  rewrite Htotal; [reflexivity|]. vm_compute. by split.
Defined.



(** ** [getImagec] and [Commit]: order and effects *)

(** X9.  [getImagec] fails only for a non-empty repository whose name, or
    whose tag when there is one, is rejected by the reference parser; a tag
    given without a repository is ignored. *)
Theorem getImagec_failures (eng : Engine) (config : ContainerCommitConfig) :
  (Repo config = "" →
     getImagec eng config
     = inr {| Reference := None; ImageLayers := []; ImageID := "" |}) ∧
  (∀ e, getImagec eng config = inl e →
     Repo config ≠ "" ∧
     (WithName eng (Repo config) = inl e ∨
      ∃ newTag, WithName eng (Repo config) = inr newTag ∧
                Tag config ≠ "" ∧ WithTag eng newTag (Tag config) = inl e)).
Proof.
  unfold getImagec. split.
  - by intros ->.
  - intros e H.
    destruct (String.eqb_spec (Repo config) "") as [Hr|Hr]; [done|]. cbn in H.
    split; [done|].
    destruct (WithName eng (Repo config)) as [e'|newTag]; [left; congruence|].
    right. exists newTag. split; [done|].
    destruct (String.eqb_spec (Tag config) "") as [Ht|Ht]; [done|]. cbn in H.
    split; [done|]. destruct (WithTag eng newTag (Tag config)); congruence.
Qed.

(** X10.  [Commit] touches nothing before it asks for the export of the
    container: an outcome reached without an export request is an error
    return, or the panic of [merge] on a [nil] configuration, and the files,
    caches and events are those of the call. *)
Theorem Commit_no_effect_before_export (rt : Runtime) (eng : Engine) (codec : Codec)
    (host : Host) (fuel : nat) (name : string) (config : ContainerCommitConfig)
    (w : World) :
  let r := Commit rt eng codec host fuel name config w in
  exports (snd r) = exports w →
  snd r = w ∧ ((∃ e, fst r = Fail e) ∨ fst r = Panic).
Proof.
  intros r. unfold r, Commit.
  assert (∀ x : string, exports w ++ [x] ≠ exports w) as Hgrow.
  { intros x Hx. apply (f_equal length) in Hx.
    rewrite length_app in Hx. cbn in Hx. lia. }
  destruct (GetContainer eng name) as [vc|]; [|by eauto].
  destruct (ContainerInspect eng name) as [e|[container|]]; try by eauto.
  destruct (cjRunning container || cjRestarting container); [by eauto|].
  destruct (BuildFromConfig eng (CommitConf config) (Changes config))
    as [e|newConfig]; [by eauto|].
  destruct (MergeConfigs config), newConfig as [userConf|]; try by eauto.
  all: destruct (ArchiveExportReader eng (vcContainerID vc) (vcLayerID vc))
         as [e|rc]; [intros H; by apply Hgrow in H|];
       destruct (getImagec eng config) as [e|ic];
         [intros H; by apply Hgrow in H|];
       rewrite commitLayer_panics; cbn; intros H; by apply Hgrow in H.
Qed.

Lemma Commit_no_effect_before_export_witness :
  let r := Commit sampleRuntime (sampleEngine stoppedContainer "scratch" smallArchive)
                  sampleCodec sampleHost 4 "db" untaggedCommit chainWorld in
  snd r = chainWorld ∧ ((∃ e, fst r = Fail e) ∨ fst r = Panic).
Proof.
  intros r. apply Commit_no_effect_before_export. reflexivity.
Defined.

(** X11.  [Commit] never returns an image identifier: every call ends in
    an error return or in a panic, the one of line 187 for every call that
    gets as far as [downloadDiff].  Whatever the outcome, the layer, image
    and repository caches are those of the call, no layer has been handed to
    the blob store or marked final, and no event has been logged. *)
Theorem Commit_never_returns_image (rt : Runtime) (eng : Engine) (codec : Codec)
    (host : Host) (fuel : nat) (name : string) (config : ContainerCommitConfig)
    (w : World) :
  let r := Commit rt eng codec host fuel name config w in
  ((∃ e, fst r = Fail e) ∨ fst r = Panic) ∧
  layerCache (snd r) = layerCache w ∧ layerFinal (snd r) = layerFinal w ∧
  imageCache (snd r) = imageCache w ∧ imageSaved (snd r) = imageSaved w ∧
  repoCache (snd r) = repoCache w ∧ blobStore (snd r) = blobStore w ∧
  events (snd r) = events w.
Proof.
  intros r. unfold r, Commit.
  destruct (GetContainer eng name) as [vc|]; [|by eauto 10].
  destruct (ContainerInspect eng name) as [e|[container|]]; try by eauto 10.
  destruct (cjRunning container || cjRestarting container); [by eauto 10|].
  destruct (BuildFromConfig eng (CommitConf config) (Changes config))
    as [e|newConfig]; [by eauto 10|].
  destruct (MergeConfigs config), newConfig as [userConf|]; try by eauto 10.
  all: destruct (ArchiveExportReader eng (vcContainerID vc) (vcLayerID vc))
         as [e|rc]; [by eauto 10|];
       destruct (getImagec eng config) as [e|ic]; [by eauto 10|];
       rewrite commitLayer_panics; cbn; by eauto 10.
Qed.

(** X12.  The repository name is checked after the export has been asked
    for: with a stopped container and a name that the reference parser
    rejects, [Commit] returns the parser's error, the export request has been
    made, and nothing else has changed. *)
Theorem Commit_rejects_name_after_export (rt : Runtime) (eng : Engine) (codec : Codec)
    (host : Host) (fuel : nat) (name : string) (config : ContainerCommitConfig)
    (w : World) (vc : VicContainer) (container : ContainerJSON)
    (newConfig : Config) (rc : Stream) (e : Error) :
  GetContainer eng name = Some vc →
  ContainerInspect eng name = inr (Some container) →
  cjRunning container = false → cjRestarting container = false →
  BuildFromConfig eng (CommitConf config) (Changes config) = inr (Some newConfig) →
  ArchiveExportReader eng (vcContainerID vc) (vcLayerID vc) = inr rc →
  Repo config ≠ "" →
  WithName eng (Repo config) = inl e →
  Commit rt eng codec host fuel name config w
  = (Fail e, setExports w (exports w ++ [vcContainerID vc])).
Proof.
  intros Hvc Hin Hrun Hres Hbuild Hexp Hrepo Hname.
  unfold Commit. rewrite Hvc, Hin, Hrun, Hres, Hbuild. cbn [orb].
  unfold getImagec. rewrite Hname.
  destruct (MergeConfigs config); rewrite Hexp;
    by destruct (String.eqb_spec (Repo config) "").
Qed.

Lemma Commit_rejects_name_after_export_witness :
  Commit sampleRuntime strictEngine sampleCodec sampleHost 4 "web" taggedCommit
         emptyWorld
  = (Fail (PlainError "invalid reference format"),
     setExports emptyWorld ["c1f0"]).
Proof.
  rewrite (Commit_rejects_name_after_export _ _ _ _ _ _ _ _
             {| vcContainerID := "c1f0"; vcLayerID := "layer0"; vcImageID := "scratch" |}
             stoppedContainer emptyConfig smallArchive
             (PlainError "invalid reference format"));
    try reflexivity.
  discriminate.
Defined.

(** ** [guest.UUID]: the product serial *)

Lemma append_cons c a b : (String c a ++ b)%string = String c (a ++ b)%string.
Proof. reflexivity. Qed.

Lemma append_nil b : (EmptyString ++ b)%string = b.
Proof. reflexivity. Qed.

Lemma strTake_strDrop n s : (strTake n s ++ strDrop n s)%string = s.
Proof.
  revert s. induction n as [|n IH]; intros [|c s]; cbn; try done.
  rewrite append_cons. f_equal. apply IH.
Qed.

Lemma strDrop_strDrop n m s : strDrop m (strDrop n s) = strDrop (n + m) s.
Proof.
  revert s. induction n as [|n IH]; intros s; [done|].
  destruct s as [|c s]; cbn; [by destruct m|]. apply IH.
Qed.

Lemma length_strDrop n s : String.length (strDrop n s) = String.length s - n.
Proof.
  revert s. induction n as [|n IH]; intros [|c s]; cbn; try done; try lia.
Qed.

Lemma length_strTake (n : nat) (s : string) :
  (n ≤ String.length s)%nat → String.length (strTake n s) = n.
Proof.
  revert s. induction n as [|n IH]; intros [|c s]; cbn; try done; try lia.
  intros H. rewrite IH; lia.
Qed.

Lemma strTake_all (n : nat) (s : string) :
  (String.length s ≤ n)%nat → strTake n s = s.
Proof.
  revert s. induction n as [|n IH]; intros [|c s]; cbn; try done; try lia.
  intros H. rewrite IH; [done|lia].
Qed.

Lemma strTake_app a b : strTake (String.length a) (a ++ b)%string = a.
Proof.
  induction a as [|c a IH]; [by destruct b|].
  rewrite append_cons. cbn. by rewrite IH.
Qed.

Lemma length_append a b :
  String.length (a ++ b)%string = String.length a + String.length b.
Proof.
  induction a as [|c a IH]; [done|]. rewrite append_cons. cbn. by rewrite IH.
Qed.

Lemma strSlice_Some (s : string) (lo hi : nat) (x : string) :
  strSlice s lo hi = Some x ↔
  (lo ≤ hi)%nat ∧ (hi ≤ String.length s)%nat ∧ x = strTake (hi - lo) (strDrop lo s).
Proof.
  unfold strSlice.
  destruct (Nat.leb_spec lo hi), (Nat.leb_spec hi (String.length s)); cbn;
    split; try (intros [= <-]; done); try (intros (? & ? & ->); done);
    intros (? & ? & _); lia.
Qed.

Lemma strSlice_None (s : string) (lo hi : nat) :
  strSlice s lo hi = None ↔ (hi < lo)%nat ∨ (String.length s < hi)%nat.
Proof.
  unfold strSlice.
  destruct (Nat.leb_spec lo hi), (Nat.leb_spec hi (String.length s)); cbn [andb];
    split; try done; try (intros _; lia); intros [?|?]; lia.
Qed.

Lemma HasPrefix_append (prefix s : string) :
  HasPrefix (prefix ++ s)%string prefix = true.
Proof.
  induction prefix as [|c prefix IH]; [by destruct s|].
  rewrite append_cons. cbn [HasPrefix]. by rewrite Ascii.eqb_refl, IH.
Qed.

Lemma HasPrefix_length s prefix :
  HasPrefix s prefix = true → (String.length prefix ≤ String.length s)%nat.
Proof.
  revert s. induction prefix as [|p prefix IH]; intros [|c s]; cbn; try done; try lia.
  intros [_ H]%andb_true_iff. apply IH in H. lia.
Qed.

(** The result of the four slices and the [Sprintf] of line 222. *)
Lemma uuid_format_cases (s : string) :
  let formatted : outcome string :=
    match strSlice s 0 8, strSlice s 8 12, strSlice s 12 21,
          strSlice s 21 (String.length s) with
    | Some a, Some b, Some c, Some d =>
        Ok (a ++ "-" ++ b ++ "-" ++ c ++ "-" ++ d)%string
    | _, _, _, _ => Panic
    end in
  ((String.length s < 21)%nat ∧ formatted = Panic) ∨
  ((21 ≤ String.length s)%nat ∧
   ∃ a b c d,
     formatted = Ok (a ++ "-" ++ b ++ "-" ++ c ++ "-" ++ d)%string ∧
     String.length a = 8 ∧ String.length b = 4 ∧ String.length c = 9 ∧
     (a ++ b ++ c ++ d)%string = s).
Proof.
  cbv zeta.
  destruct (strSlice s 0 8) as [a|] eqn:Ha;
    [|apply strSlice_None in Ha; left; split; [lia|done]].
  destruct (strSlice s 8 12) as [b|] eqn:Hb;
    [|apply strSlice_None in Hb; left; split; [lia|done]].
  destruct (strSlice s 12 21) as [c|] eqn:Hc;
    [|apply strSlice_None in Hc; left; split; [lia|done]].
  apply strSlice_Some in Ha as (_ & Ha8 & ->).
  apply strSlice_Some in Hb as (_ & Hb12 & ->).
  apply strSlice_Some in Hc as (_ & Hc21 & ->).
  destruct (strSlice s 21 (String.length s)) as [d|] eqn:Hd;
    [|apply strSlice_None in Hd; lia].
  apply strSlice_Some in Hd as (_ & _ & ->).
  right. split; [done|]. do 4 eexists. split; [reflexivity|].
  replace (8 - 0) with 8 by lia. replace (12 - 8) with 4 by lia.
  replace (21 - 12) with 9 by lia.
  assert (strDrop 0 s = s) as -> by (by destruct s).
  rewrite !length_strTake by (rewrite ?length_strDrop; lia).
  split; [done|]. split; [done|]. split; [done|].
  rewrite (strTake_all _ (strDrop 21 s)) by (rewrite length_strDrop; lia).
  replace (strDrop 21 s) with (strDrop 9 (strDrop 12 s))
    by (by rewrite strDrop_strDrop).
  rewrite strTake_strDrop.
  replace (strDrop 12 s) with (strDrop 4 (strDrop 8 s))
    by (by rewrite strDrop_strDrop).
  rewrite strTake_strDrop. apply strTake_strDrop.
Qed.

Lemma uuid_body id :
  HasPrefix id guest.UUIDPrefix = true →
  match strSlice id (String.length guest.UUIDPrefix) (String.length id - 1) with
  | Some body => removeSpaces body = serialDigits id
  | None => serialDigits id = EmptyString
  end.
Proof.
  intros Hp%HasPrefix_length. unfold serialDigits.
  change (String.length guest.UUIDPrefix) with 7 in *.
  destruct (strSlice id 7 _) as [body|] eqn:Hb.
  - apply strSlice_Some in Hb as (Hlo & _ & ->).
    by replace (String.length id - 1 - 7) with (String.length id - 8) by lia.
  - apply strSlice_None in Hb.
    by replace (String.length id - 8) with 0 by lia.
Qed.

(** X14.  [UUID] panics exactly when the serial starts with ["VMware-"] and
    has fewer than 21 characters other than spaces between that prefix and
    its last byte; a serial that is the bare prefix is one such. *)
Theorem UUID_panics_on_short_serial (id : string) :
  guest.UUID (inr id) = Panic ↔
  HasPrefix id guest.UUIDPrefix = true ∧ (String.length (serialDigits id) < 21)%nat.
Proof.
  unfold guest.UUID.
  destruct (HasPrefix id guest.UUIDPrefix) eqn:Hp; cbn [negb];
    [|split; [done|by intros []]].
  pose proof (uuid_body id Hp) as Hbody.
  destruct (strSlice id _ _) as [body|].
  - rewrite Hbody.
    destruct (uuid_format_cases (serialDigits id))
      as [[Hlen ->]|[Hlen (a & b & c & d & -> & _)]].
    + done.
    + split; [done|]. intros [_ H]. lia.
  - rewrite Hbody. cbn. split; [intros _; split; [done|lia]|done].
Qed.

(** X15.  A value returned by [UUID] is the characters of the serial
    between the prefix and the last byte, spaces left out, cut after the
    8th, 12th and 21st with a dash put in at each cut. *)
Theorem UUID_result_shape (id u : string) :
  guest.UUID (inr id) = Ok u →
  HasPrefix id guest.UUIDPrefix = true ∧
  ∃ a b c d,
    u = (a ++ "-" ++ b ++ "-" ++ c ++ "-" ++ d)%string ∧
    String.length a = 8 ∧ String.length b = 4 ∧ String.length c = 9 ∧
    (a ++ b ++ c ++ d)%string = serialDigits id.
Proof.
  unfold guest.UUID.
  destruct (HasPrefix id guest.UUIDPrefix) eqn:Hp; cbn [negb]; [|done].
  pose proof (uuid_body id Hp) as Hbody.
  destruct (strSlice id _ _) as [body|]; [|done]. rewrite Hbody.
  destruct (uuid_format_cases (serialDigits id))
    as [[Hlen ->]|[Hlen (a & b & c & d & -> & Hshape)]]; [done|].
  intros [= <-]. split; [done|]. by exists a, b, c, d.
Qed.

Lemma UUID_result_shape_witness :
  ∃ a b c d,
    "564d395e-d807-e18a-cb25-b79f65eb2b9f"
    = (a ++ "-" ++ b ++ "-" ++ c ++ "-" ++ d)%string ∧
    String.length a = 8 ∧ String.length b = 4 ∧ String.length c = 9 ∧
    (a ++ b ++ c ++ d)%string
    = serialDigits (productSerial sampleSerialHi sampleSerialLo).
Proof.
  exact (proj2 (UUID_result_shape
                  (productSerial sampleSerialHi sampleSerialLo)
                  "564d395e-d807-e18a-cb25-b79f65eb2b9f" eq_refl)).
Defined.

(** X16.  The last byte of the serial is dropped whatever it is: two
    serials that differ in their last byte only give the same result. *)
Theorem UUID_ignores_last_byte (body : string) (c1 c2 : ascii) :
  guest.UUID (inr ("VMware-" ++ body ++ String c1 EmptyString)%string)
  = guest.UUID (inr ("VMware-" ++ body ++ String c2 EmptyString)%string).
Proof.
  assert (∀ c, strSlice ("VMware-" ++ body ++ String c EmptyString)%string
                 (String.length guest.UUIDPrefix)
                 (String.length ("VMware-" ++ body ++ String c EmptyString)%string - 1)
               = Some body) as Hslice.
  { intros c. apply strSlice_Some.
    rewrite !length_append.
    change (String.length guest.UUIDPrefix) with 7.
    change (String.length "VMware-") with 7.
    change (String.length (String c EmptyString)) with 1.
    split; [lia|]. split; [lia|].
    replace (7 + (String.length body + 1) - 1 - 7) with (String.length body) by lia.
    change (strDrop 7 ("VMware-" ++ body ++ String c EmptyString)%string)
      with (body ++ String c EmptyString)%string.
    apply eq_sym, strTake_app. }
  assert (∀ c, HasPrefix ("VMware-" ++ body ++ String c EmptyString)%string
                 guest.UUIDPrefix = true) as Hprefix
    by (intros c; apply HasPrefix_append).
  unfold guest.UUID. by rewrite !Hprefix, !Hslice.
Qed.

Lemma serial_body (body : string) (c : ascii) :
  strSlice ("VMware-" ++ body ++ String c EmptyString)%string
    (String.length guest.UUIDPrefix)
    (String.length ("VMware-" ++ body ++ String c EmptyString)%string - 1)
  = Some body.
Proof.
  apply strSlice_Some. rewrite !length_append.
  change (String.length guest.UUIDPrefix) with 7.
  change (String.length "VMware-") with 7.
  change (String.length (String c EmptyString)) with 1.
  split; [lia|]. split; [lia|].
  replace (7 + (String.length body + 1) - 1 - 7) with (String.length body) by lia.
  change (strDrop 7 ("VMware-" ++ body ++ String c EmptyString)%string)
    with (body ++ String c EmptyString)%string.
  apply eq_sym, strTake_app.
Qed.

Lemma removeSpaces_keep (c : ascii) (s : string) :
  Ascii.eqb c " "%char = false →
  removeSpaces (String c s) = String c (removeSpaces s).
Proof. intros H. cbn. by rewrite H. Qed.

Lemma removeSpaces_skip (s : string) :
  removeSpaces (String " "%char s) = removeSpaces s.
Proof. reflexivity. Qed.

Lemma append_assoc (a b c : string) :
  (a ++ b ++ c)%string = ((a ++ b) ++ c)%string.
Proof.
  induction a as [|x a IH]; [done|]. rewrite !append_cons. by rewrite IH.
Qed.

Lemma productSerial_body (hi lo : list (ascii * ascii)) :
  productSerial hi lo
  = ("VMware-" ++ (spaced hi ++ "-" ++ spaced lo)
     ++ String "010"%char EmptyString)%string.
Proof.
  unfold productSerial. by rewrite <- !append_assoc.
Qed.

(** X17.  For a serial in the layout the BIOS prints (the prefix, eight
    two-character groups separated by spaces, a dash, eight more groups, a
    line feed) [UUID] returns the canonical 8-4-4-4-12 form of the same
    thirty-two characters: the dash of the serial becomes the fourth dash. *)
Theorem UUID_canonical_form (hi lo : list (ascii * ascii)) :
  length hi = 8 → length lo = 8 →
  forallb noSpace (hi ++ lo) = true →
  guest.UUID (inr (productSerial hi lo))
  = Ok (packed (take 4 hi) ++ "-" ++ packed (take 2 (drop 4 hi)) ++ "-"
        ++ packed (drop 6 hi) ++ "-" ++ packed (take 2 lo) ++ "-"
        ++ packed (drop 2 lo))%string.
Proof.
  intros Hhi Hlo Hns.
  do 9 (destruct hi as [|[? ?] hi]; try discriminate Hhi).
  do 9 (destruct lo as [|[? ?] lo]; try discriminate Hlo).
  cbn [app forallb] in Hns. unfold noSpace in Hns. cbn [fst snd] in Hns.
  repeat match goal with
         | H : _ && _ = true |- _ => apply andb_true_iff in H as [? ?]
         | H : negb _ = true |- _ => apply negb_true_iff in H
         end.
  unfold guest.UUID. rewrite productSerial_body.
  rewrite HasPrefix_append, serial_body. cbn [negb].
  cbv [spaced pairText fst snd String.append].
  repeat (rewrite removeSpaces_skip
          || rewrite removeSpaces_keep by (assumption || reflexivity)).
  reflexivity.
Qed.

Lemma UUID_canonical_form_witness :
  forallb noSpace (sampleSerialHi ++ sampleSerialLo) = true ∧
  guest.UUID (inr (productSerial sampleSerialHi sampleSerialLo))
  = Ok "564d395e-d807-e18a-cb25-b79f65eb2b9f".
Proof.
  split; [reflexivity|].
  exact (UUID_canonical_form sampleSerialHi sampleSerialLo eq_refl eq_refl eq_refl).
Defined.

(** ** [portlayer.Init] and the serial-port operation *)

(** X18.  [Init] starts the components in one fixed order and stops at the
    first failure: the calls it has made are always a beginning of the
    complete sequence (storage configuration, task error handler, store,
    exec, network, logging, serial ports), and it returns without error
    exactly when it has made them all. *)
Theorem Init_stops_at_first_failure (b : portlayer.Boot) :
  ∃ vmFolder rest,
    startSequence vmFolder = snd (portlayer.Init b) ++ rest ∧
    (fst (portlayer.Init b) = Ok tt ↔ rest = []).
Proof.
  unfold portlayer.Init, startSequence.
  destruct (portlayer.GuestInfoSource b);
    [exists "", (startSequence ""); by split|].
  destruct (portlayer.GuestInfoSink b);
    [exists "", (startSequence ""); by split|].
  destruct (guest.GetSelf _ _) as [vch|e| |];
    try (exists "", (tail (startSequence "")); by split).
  destruct (portlayer.VMPathName b vch) as [e|vmPath];
    [exists "", (drop 2 (startSequence "")); by split|].
  destruct (portlayer.ToURL b _) as [e|vmFolder];
    [exists "", (drop 2 (startSequence "")); by split|].
  exists vmFolder.
  destruct (portlayer.storeInit b vmFolder);
    [exists (drop 3 (startSequence vmFolder)); by split|].
  destruct (portlayer.execInit b);
    [exists (drop 4 (startSequence vmFolder)); by split|].
  destruct (portlayer.networkInit b);
    [exists (drop 5 (startSequence vmFolder)); by split|].
  destruct (portlayer.loggingInit b);
    [exists (drop 6 (startSequence vmFolder)); by split|].
  exists []. by split.
Qed.

(** X19.  A start-up that succeeds found its own machine by the UUID read
    from the product serial, and initialised the store with the URL of the
    directory of that machine's configuration file. *)
Theorem Init_success_data_flow (b : portlayer.Boot) (log : list portlayer.InitStep) :
  portlayer.Init b = (Ok tt, log) →
  ∃ u vch vmPath vmFolder,
    guest.UUID (portlayer.ProductSerial b) = Ok u ∧
    portlayer.FindByUuid b u = inr (Some vch) ∧
    portlayer.VMPathName b vch = inr vmPath ∧
    portlayer.ToURL b (portlayer.Dir b vmPath) = inr vmFolder ∧
    portlayer.storeInit b vmFolder = None ∧
    log = startSequence vmFolder.
Proof.
  unfold portlayer.Init, guest.GetSelf. intros H.
  destruct (portlayer.GuestInfoSource b); [done|].
  destruct (portlayer.GuestInfoSink b); [done|].
  destruct (guest.UUID (portlayer.ProductSerial b)) as [u| | |] eqn:Hu; try done.
  destruct (portlayer.FindByUuid b u) as [e|[vch|]] eqn:Hfind; try done.
  destruct (portlayer.VMPathName b vch) as [e|vmPath] eqn:Hpath; [done|].
  destruct (portlayer.ToURL b _) as [e|vmFolder] eqn:Hurl; [done|].
  destruct (portlayer.storeInit b vmFolder) eqn:Hstore; [done|].
  destruct (portlayer.execInit b); [done|].
  destruct (portlayer.networkInit b); [done|].
  destruct (portlayer.loggingInit b); [done|].
  injection H as <-. by exists u, vch, vmPath, vmFolder.
Qed.

Lemma Init_success_data_flow_witness :
  ∃ u vch vmPath vmFolder,
    guest.UUID (portlayer.ProductSerial sampleBoot) = Ok u ∧
    portlayer.FindByUuid sampleBoot u = inr (Some vch) ∧
    portlayer.VMPathName sampleBoot vch = inr vmPath ∧
    portlayer.ToURL sampleBoot (portlayer.Dir sampleBoot vmPath) = inr vmFolder ∧
    portlayer.storeInit sampleBoot vmFolder = None ∧
    startSequence "ds://[ds1] vch" = startSequence vmFolder.
Proof.
  exact (Init_success_data_flow sampleBoot (startSequence "ds://[ds1] vch") eq_refl).
Defined.

Ltac no_commit_call H :=
  repeat (apply elem_of_cons in H as [H|H]; [discriminate H|]);
  by apply elem_of_nil in H.

(** X20.  One run of the serial-port operation commits a handle only after
    unbinding and binding, in that order: the handle committed is the one
    that [Bind] returned for the handle that [Unbind] returned for the new
    handle of the container; and the run returns no error exactly when that
    chain exists and its commit succeeds. *)
Theorem operation_commits_rebound_handle (c : portlayer.Container) :
  (∀ h, portlayer.CallCommit h ∈ snd (portlayer.operation c) ↔
        ∃ h0 h1, portlayer.NewHandle c = Some h0 ∧
                 portlayer.Unbind c h0 = inr (Some h1) ∧
                 portlayer.Bind c h1 = inr (Some h)) ∧
  (fst (portlayer.operation c) = None ↔
     ∃ h0 h1 h, portlayer.NewHandle c = Some h0 ∧
                portlayer.Unbind c h0 = inr (Some h1) ∧
                portlayer.Bind c h1 = inr (Some h) ∧
                portlayer.HandleCommit c h = None).
Proof.
  unfold portlayer.operation.
  destruct (portlayer.NewHandle c) as [h0|]; cbn [fst snd].
  2:{ split; [intros h|]; split; try done.
      - intros H. no_commit_call H.
      - by intros (? & ? & ? & _).
      - by intros (? & ? & ? & ? & _). }
  destruct (portlayer.Unbind c h0) as [e|[h1|]] eqn:Hu; cbn [fst snd].
  - split; [intros h|]; split; try done.
    + intros H. no_commit_call H.
    + intros (x & ? & [= <-] & Hx & _). congruence.
    + intros (x & ? & ? & [= <-] & Hx & _). congruence.
  - destruct (portlayer.Bind c h1) as [e|[h2|]] eqn:Hb; cbn [fst snd].
    + split; [intros h|]; split; try done.
      * intros H. no_commit_call H.
      * intros (x & y & [= <-] & Hx & Hy). congruence.
      * intros (x & y & ? & [= <-] & Hx & Hy & _). congruence.
    + split; [intros h|]; split.
      * intros H.
        do 3 (apply elem_of_cons in H as [H|H]; [discriminate H|]).
        apply elem_of_cons in H as [[= ->]|H]; [by exists h0, h1|].
        by apply elem_of_nil in H.
      * intros (x & y & [= <-] & Hx & Hy).
        assert (y = h1) as -> by congruence.
        assert (h = h2) as -> by congruence.
        do 3 (apply elem_of_cons; right). apply elem_of_cons. by left.
      * intros H. by exists h0, h1, h2.
      * intros (x & y & z & [= <-] & Hx & Hy & Hz).
        assert (y = h1) as -> by congruence.
        assert (z = h2) as -> by congruence. done.
    + split; [intros h|]; split; try done.
      * intros H. no_commit_call H.
      * intros (x & y & [= <-] & Hx & Hy). congruence.
      * intros (x & y & ? & [= <-] & Hx & Hy & _). congruence.
  - split; [intros h|]; split; try done.
    + intros H. no_commit_call H.
    + intros (x & ? & [= <-] & Hx & _). congruence.
    + intros (x & ? & ? & [= <-] & Hx & _). congruence.
Qed.
